(** * Web cache and URL access tracker (0x02-redis_basic/web.py)

    A shallow embedding of the [Cache] class: the decorator
    [count_and_cache] with the [wrapper] it builds, the function written
    under the decorator, the counter reader [get_count] and the class
    statement that puts them together, run against a model of the Redis
    server they talk to and of what [requests.get] does.

    Conventions.
    - A Python [str] is represented by its UTF-8 encoding, the bytes
      redis-py sends for it; bytes that are no valid UTF-8 stand for no
      [str], and [bytes.decode] refuses them.
    - The Redis server is taken to be reachable; a command either answers or
      is refused with a [ResponseError].  Its keys hold strings, the one
      type of value this class writes.
    - Time is the server's clock in milliseconds.  Commands are
      instantaneous; the clock moves while a request is in flight and
      between calls.
    - [wrapper] is a closure over the cache instance, [ttl] and [func]; the
      model passes [ttl] and [func] as arguments and finds the instance's
      Redis handle in the world.  [func] stands for what the call
      [func(url)] of line 39 does; the properties of [wrapper] are stated for
      every such function that leaves the store alone.
    - Calls bind their arguments as Python does ([bind_args]), so a call
      that leaves a parameter without a value raises [TypeError]: this is
      what becomes of the decoration at line 46 and of [func(url)] when
      [func] is the two-parameter function of line 47. *)

From Stdlib Require Import ZArith NArith Ascii String List Lia Bool.
From stdpp Require Import base option gmap strings.

Local Open Scope string_scope.
Local Open Scope Z_scope.

(** ** Exceptions and the effect monad *)

(** What [requests.get] can raise before any response is received. *)
Inductive request_failure : Type :=
| ConnectionError
| Timeout
| InvalidSchema
| MissingSchema
| InvalidURL
| TooManyRedirects.

Inductive exn : Type :=
| ResponseError (msg : string)             (* redis.exceptions.ResponseError *)
| ValueError                               (* int() on bytes that are no literal *)
| TypeError                                (* a call that cannot bind its arguments *)
| UnicodeDecodeError                       (* bytes.decode on invalid UTF-8 *)
| RequestException (e : request_failure).  (* requests.exceptions.* *)

Inductive res (A : Type) : Type :=
| Ok (a : A)
| Raise (e : exn).
Arguments Ok {A} a.
Arguments Raise {A} e.

(** One stored value: the bytes and, when the key is volatile, the instant
    (absolute, in milliseconds) at which it expires. *)
Record entry : Type := Entry { value : string; expire_at : option N }.

(** An HTTP response as far as [get_page] looks at it. *)
Record response : Type := Response { status_code : Z; text : string }.

Inductive http_outcome : Type :=
| Responds (r : response)
| Fails (e : request_failure).

(** What happens to one request: how long it takes and how it ends. *)
Record exchange : Type := Exchange { latency : N; outcome : http_outcome }.

(** The world a [Cache] instance runs in: the Redis keyspace, the server's
    clock, and the URLs requested from the network so far. *)
Record world : Type := World {
  redis : gmap string entry;
  clock : N;
  sent : list string
}.

Definition M (A : Type) : Type := world -> res A * world.

Definition ret {A} (a : A) : M A := fun w => (Ok a, w).

Definition raise {A} (e : exn) : M A := fun w => (Raise e, w).

(** An exception leaves the effects already performed in place. *)
Definition bind {A B} (c : M A) (k : A -> M B) : M B :=
  fun w => match c w with
           | (Ok a, w') => k a w'
           | (Raise e, w') => (Raise e, w')
           end.

Notation "x <- c1 ;; c2" := (bind c1 (fun x => c2))
  (at level 100, c1 at next level, right associativity).
Notation "c1 ;;; c2" := (bind c1 (fun _ => c2))
  (at level 100, right associativity).

(** ** Decimal integers as Redis and Python read and write them *)

Definition LLONG_MAX : Z := 9223372036854775807.
Definition LLONG_MIN : Z := -9223372036854775808.

Definition is_digit (c : ascii) : bool :=
  (48 <=? N_of_ascii c)%N && (N_of_ascii c <=? 57)%N.

Definition digit_value (c : ascii) : Z := Z.of_N (N_of_ascii c) - 48.

Definition digit_char (d : N) : ascii := ascii_of_N (48 + d).

(** Digits of [n], most significant first, in front of [acc].  The fuel
    bounds the number of digits. *)
Fixpoint digits_of (fuel : nat) (n : N) (acc : string) : string :=
  let acc' := String (digit_char (n mod 10)) acc in
  match fuel with
  | O => acc'
  | S fuel' => if (n / 10 =? 0)%N then acc' else digits_of fuel' (n / 10)%N acc'
  end.

Definition N_to_string (n : N) : string := digits_of (N.to_nat (N.log2 n)) n "".

(** ll2string: what INCR stores. *)
Definition ll2string (z : Z) : string :=
  match z with
  | Zneg p => String "-" (N_to_string (Npos p))
  | _ => N_to_string (Z.to_N z)
  end.

Fixpoint digits_acc (s : string) (acc : Z) : option Z :=
  match s with
  | EmptyString => Some acc
  | String c s' =>
      if is_digit c then digits_acc s' (10 * acc + digit_value c) else None
  end.

(** string2ll: the strict reader INCR applies to the stored bytes.  No
    sign but a leading minus, no leading zero, nothing but digits, and the
    value within the signed 64-bit range. *)
Definition string2ll (s : string) : option Z :=
  match s with
  | EmptyString => None
  | String c rest =>
      if Ascii.eqb c "0" then
        match rest with EmptyString => Some 0 | _ => None end
      else
        let neg := Ascii.eqb c "-" in
        match (if neg then rest else s) with
        | EmptyString => None
        | String d ds =>
            if is_digit d && negb (Ascii.eqb d "0") then
              match digits_acc ds (digit_value d) with
              | Some v =>
                  let n := if neg then - v else v in
                  if (LLONG_MIN <=? n) && (n <=? LLONG_MAX) then Some n else None
              | None => None
              end
            else None
        end
  end.

(** Py_ISSPACE on a byte. *)
Definition py_isspace (c : ascii) : bool :=
  let n := N_of_ascii c in ((9 <=? n)%N && (n <=? 13)%N) || (n =? 32)%N.

Fixpoint lstrip (s : string) : string :=
  match s with
  | String c s' => if py_isspace c then lstrip s' else s
  | EmptyString => EmptyString
  end.

Fixpoint all_space (s : string) : bool :=
  match s with
  | String c s' => py_isspace c && all_space s'
  | EmptyString => true
  end.

(** The digits of a Python literal after its first digit: digits, single
    underscores between digits, then optional trailing whitespace. *)
Fixpoint py_digits (s : string) (acc : Z) (after_underscore : bool) : option Z :=
  match s with
  | EmptyString => if after_underscore then None else Some acc
  | String c s' =>
      if is_digit c then py_digits s' (10 * acc + digit_value c) false
      else if after_underscore then None
      else if Ascii.eqb c "_" then py_digits s' acc true
      else if py_isspace c && all_space s' then Some acc
      else None
  end.

(** The value of the bytes [b] read as a base-10 literal: optional
    whitespace, an optional sign, digits. *)
Definition py_literal (b : string) : option Z :=
  match lstrip b with
  | EmptyString => None
  | String c rest =>
      let signed := Ascii.eqb c "-" || Ascii.eqb c "+" in
      match (if signed then rest else String c rest) with
      | String d ds =>
          if is_digit d then
            match py_digits ds (digit_value d) false with
            | Some v => Some (if Ascii.eqb c "-" then - v else v)
            | None => None
            end
          else None
      | EmptyString => None
      end
  end.

Fixpoint count_digits (s : string) : nat :=
  match s with
  | EmptyString => O
  | String c s' => if is_digit c then S (count_digits s') else count_digits s'
  end.

(** [sys.get_int_max_str_digits()], as the interpreter starts. *)
Definition max_str_digits : nat := 4300.

(** [int(b)] for a bytes object [b]: the value of the literal, unless it
    has more digits than the interpreter converts. *)
Definition py_int (b : string) : option Z :=
  match py_literal b with
  | Some v => if (count_digits b <=? max_str_digits)%nat then Some v else None
  | None => None
  end.

(** ** UTF-8 *)

(** Well-formed UTF-8, as the strict decoder accepts it: [pending] bytes of
    the current character are still due, the next of them within
    [lo..hi]. *)
Fixpoint utf8_scan (s : string) (pending : nat) (lo hi : N) : bool :=
  match s with
  | EmptyString => Nat.eqb pending 0
  | String c s' =>
      let b := N_of_ascii c in
      match pending with
      | O =>
          if (b <? 128)%N then utf8_scan s' 0 128 191
          else if (194 <=? b)%N && (b <=? 223)%N then utf8_scan s' 1 128 191
          else if (b =? 224)%N then utf8_scan s' 2 160 191
          else if (b =? 237)%N then utf8_scan s' 2 128 159
          else if (225 <=? b)%N && (b <=? 239)%N then utf8_scan s' 2 128 191
          else if (b =? 240)%N then utf8_scan s' 3 144 191
          else if (241 <=? b)%N && (b <=? 243)%N then utf8_scan s' 3 128 191
          else if (b =? 244)%N then utf8_scan s' 3 128 143
          else false
      | S p =>
          if (lo <=? b)%N && (b <=? hi)%N then utf8_scan s' p 128 191 else false
      end
  end.

Definition utf8_valid (s : string) : bool := utf8_scan s 0 128 191.

(** ** The Redis server *)

(** A key is gone once the clock has passed its expiry instant. *)
Definition live (now : N) (e : entry) : bool :=
  match expire_at e with
  | None => true
  | Some t => negb (t <? now)%N
  end.

(** The entry a command finds under [k]: absent and expired are one. *)
Definition find (k : string) (w : world) : option entry :=
  match redis w !! k with
  | Some e => if live (clock w) e then Some e else None
  | None => None
  end.

Definition store (k : string) (e : entry) (w : world) : world :=
  {| redis := <[k := e]> (redis w); clock := clock w; sent := sent w |}.

(** GET key *)
Definition redis_get (k : string) : M (option string) :=
  fun w => (Ok (value <$> find k w), w).

(** INCR key: a missing key counts from 0 and becomes persistent; an
    existing one keeps its time to live. *)
Definition redis_incr (k : string) : M Z :=
  fun w =>
    match find k w with
    | None => (Ok 1, store k (Entry "1" None) w)
    | Some e =>
        match string2ll (value e) with
        | None => (Raise (ResponseError "value is not an integer or out of range"), w)
        | Some n =>
            if n <? LLONG_MAX
            then (Ok (n + 1), store k (Entry (ll2string (n + 1)) (expire_at e)) w)
            else (Raise (ResponseError "increment or decrement would overflow"), w)
        end
    end.

(** The times to live SETEX takes at the instant [now]: positive, and with
    an expiry instant that fits a signed 64-bit count of milliseconds. *)
Definition setex_accepts (seconds : Z) (now : N) : bool :=
  (0 <? seconds) && (Z.of_N now + seconds * 1000 <=? LLONG_MAX).

(** SETEX key seconds value.  The wording of the refusal differs between
    versions of the server. *)
Definition redis_setex (k : string) (seconds : Z) (v : string) : M unit :=
  fun w =>
    if setex_accepts seconds (clock w)
    then (Ok tt, store k (Entry v (Some (clock w + Z.to_N seconds * 1000)%N)) w)
    else (Raise (ResponseError "invalid expire time in setex"), w).

(** Time passing between two calls. *)
Definition sleep (ms : N) (w : world) : world :=
  {| redis := redis w; clock := (clock w + ms)%N; sent := sent w |}.

(** ** Calls *)

(** The values the calls of this file pass: the cache instance, an
    integer, a string. *)
Inductive pyval : Type :=
| VCache
| VInt (n : Z)
| VStr (s : string).

Definition arg (name : string) (env : list (string * pyval)) : option pyval :=
  snd <$> List.find (fun p => String.eqb (fst p) name) env.

Definition without (name : string) (kw : list (string * pyval)) : list (string * pyval) :=
  List.filter (fun p => negb (String.eqb (fst p) name)) kw.

(** How a call binds its arguments to the parameters of a function (each
    with its default, if it has one): positional arguments go to the first
    parameters, keywords to the parameters they name, defaults fill the
    rest.  [None] is the [TypeError] of a call with too many arguments, two
    values for one parameter, an unknown keyword or a parameter left
    without a value. *)
Fixpoint bind_args (params : list (string * option pyval)) (pos : list pyval)
  (kw : list (string * pyval)) : option (list (string * pyval)) :=
  match params with
  | [] => match pos, kw with [], [] => Some [] | _, _ => None end
  | (name, dflt) :: params' =>
      match pos with
      | v :: pos' =>
          match arg name kw with
          | Some _ => None
          | None => cons (name, v) <$> bind_args params' pos' kw
          end
      | [] =>
          match arg name kw with
          | Some v => cons (name, v) <$> bind_args params' [] (without name kw)
          | None =>
              match dflt with
              | Some v => cons (name, v) <$> bind_args params' [] kw
              | None => None
              end
          end
      end
  end.

(** ** The cache *)

(** Truth value of an [Optional[bytes]]: [None] and [b''] are false. *)
Definition truthy (b : option string) : bool :=
  match b with
  | Some (String _ _) => true
  | _ => false
  end.

(** [cached_page.decode('utf-8')] and [int(count)], applied after the
    truth test has excluded [None]. *)
Definition decode (b : option string) : M string :=
  let bytes := default "" b in
  if utf8_valid bytes then ret bytes else raise UnicodeDecodeError.

Definition int_of_bytes (b : option string) : M Z :=
  match py_int (default "" b) with
  | Some n => ret n
  | None => raise ValueError
  end.

Definition count_key (url : string) : string := "count:" +:+ url.

(** [def count_and_cache(self, ttl: int = 10)] *)
Definition count_and_cache_params : list (string * option pyval) :=
  [("self", None); ("ttl", Some (VInt 10))].

(** [def get_page(self, url: str)] *)
Definition get_page_params : list (string * option pyval) :=
  [("self", None); ("url", None)].

(** The time to live a call of [count_and_cache] works with. *)
Definition decorator_ttl (pos : list pyval) (kw : list (string * pyval)) : res pyval :=
  match bind_args count_and_cache_params pos kw with
  | Some env => match arg "ttl" env with Some v => Ok v | None => Raise TypeError end
  | None => Raise TypeError
  end.

(** The decorator: [count_and_cache ttl] takes [func] and returns
    [wrapper]. *)
Definition count_and_cache (ttl : Z) (func : string -> M string)
  : string -> M string :=
  fun url (* wrapper *) =>
    let cache_key := count_key url in
    redis_incr cache_key ;;;
    (* Check if URL is in cache *)
    cached_page <- redis_get url ;;
    if truthy cached_page then decode cached_page
    else
      (* Fetch the page if not cached *)
      page_content <- func url ;;
      (* Cache the content with expiration *)
      redis_setex url ttl page_content ;;;
      ret page_content.

Definition get_count (url : string) : M Z :=
  count <- redis_get (count_key url) ;;
  if truthy count then int_of_bytes count else ret 0.

(** *** Sequences of calls *)

Inductive op : Type :=
| GetPage (url : string)
| GetCount (url : string)
| Sleep (ms : N).

Definition step (ttl : Z) (func : string -> M string) (w : world) (o : op) : world :=
  match o with
  | GetPage url => snd (count_and_cache ttl func url w)
  | GetCount url => snd (get_count url w)
  | Sleep ms => sleep ms w
  end.

Definition run (ttl : Z) (func : string -> M string) (ops : list op) (w : world) : world :=
  fold_left (step ttl func) ops w.

(** *** The function under the decorator *)

Definition ascii_lower (c : ascii) : ascii :=
  let n := N_of_ascii c in
  if (65 <=? n)%N && (n <=? 90)%N then ascii_of_N (n + 32) else c.

Fixpoint lower (s : string) : string :=
  match s with
  | EmptyString => EmptyString
  | String c s' => String (ascii_lower c) (lower s')
  end.

Fixpoint has_colon (s : string) : bool :=
  match s with
  | EmptyString => false
  | String c s' => Ascii.eqb c ":" || has_colon s'
  end.

(** [str.isspace] on an ASCII character. *)
Definition str_isspace (c : ascii) : bool :=
  let n := N_of_ascii c in py_isspace c || ((28 <=? n)%N && (n <=? 31)%N).

(** [str.lstrip] as far as ASCII goes. *)
Fixpoint url_lstrip (s : string) : string :=
  match s with
  | String c s' => if str_isspace c then url_lstrip s' else s
  | EmptyString => EmptyString
  end.

(** The URLs for which requests has no connection adapter, as far as the
    text alone settles it: once leading whitespace is removed, a colon in
    the URL and a start other than [http].  Such a URL is kept as it is by
    [prepare_url] and refused by [get_adapter] with [InvalidSchema], before
    any traffic.  A URL whose first character after ASCII whitespace lies
    outside ASCII is not settled here: that character may be whitespace
    too. *)
Definition no_adapter (url : string) : bool :=
  match url_lstrip url with
  | EmptyString => false
  | String c rest =>
      (N_of_ascii c <? 128)%N && has_colon (String c rest)
      && negb (String.prefix "http" (lower (String c rest)))
  end.

Section Network.

(** The network: the [n]-th request the process sends, to [url], takes
    [latency] milliseconds and ends as [outcome] says.  Whatever else
    requests refuses is among the failures the network may answer with. *)
Variable web : nat -> string -> exchange.

(** The world once the next request, for [url], has ended. *)
Definition after_request (url : string) (w : world) : world :=
  {| redis := redis w;
     clock := (clock w + latency (web (length (sent w)) url))%N;
     sent := sent w ++ [url] |}.

(** [requests.get(url)] *)
Definition requests_get (url : string) : M response :=
  fun w =>
    if no_adapter url then (Raise (RequestException InvalidSchema), w)
    else
      match outcome (web (length (sent w)) url) with
      | Responds r => (Ok r, after_request url w)
      | Fails e => (Raise (RequestException e), after_request url w)
      end.

(** The function written under the decorator, lines 47 to 57
    ([get_page.__wrapped__]). *)
Definition get_page_wrapped (self : pyval) (url : string) : M string :=
  response <- requests_get url ;;
  ret (text response).

(** [func(url)], line 39, when [func] is the function above: one
    positional argument for the parameters [self] and [url]. *)
Definition func_of_get_page : string -> M string :=
  fun url =>
    match bind_args get_page_params [VStr url] [] with
    | Some env =>
        match arg "self" env, arg "url" env with
        | Some self, Some (VStr u) => get_page_wrapped self u
        | _, _ => raise TypeError
        end
    | None => raise TypeError
    end.

(** Line 46, which the class body evaluates: [count_and_cache(ttl=10)],
    then the decorator it returns applied to the function of line 47.  The
    result is the value the class would bind to the name [get_page]. *)
Definition get_page : res (string -> M string) :=
  match decorator_ttl [] [("ttl", VInt 10)] with
  | Ok (VInt ttl) => Ok (count_and_cache ttl func_of_get_page)
  | Ok _ => Raise TypeError
  | Raise e => Raise e
  end.

(** A fetcher of one argument that does what the body of [get_page] does,
    with the instance given. *)
Definition fetch : string -> M string := get_page_wrapped VCache.

End Network.

(** A server with no key, at time [t0], before any request. *)
Definition fresh (t0 : N) : world := {| redis := ∅; clock := t0; sent := [] |}.

(** ** Observations *)

(** The access counter of [url] stands at [c]: nothing is found under the
    key ["count:" ++ url] and [c] is 0, or the key holds the decimal form of
    [c], as INCR writes it, and is persistent. *)
Definition counter_at (url : string) (c : Z) (w : world) : Prop :=
  (c = 0 /\ find ("count:" +:+ url) w = None) \/
  (1 <= c <= LLONG_MAX /\
   redis w !! ("count:" +:+ url) = Some (Entry (ll2string c) None)).

(** What [wrapper] relies on in the function it calls: [func] leaves the
    store alone, does not move the clock back, and sends one request at
    most, for the URL it is given. *)
Record fetcher (func : string -> M string) : Prop := Fetcher {
  fetch_store : forall url w, redis (snd (func url w)) = redis w;
  fetch_clock : forall url w, (clock w <= clock (snd (func url w)))%N;
  fetch_sent : forall url w,
    sent (snd (func url w)) = sent w \/ sent (snd (func url w)) = (sent w ++ [url])%list
}.

(** [func] returns no page for a URL that starts with ["count:"]. *)
Definition refuses_count_urls (func : string -> M string) : Prop :=
  forall url w, exists e, fst (func ("count:" +:+ url) w) = Raise e.

(** What lines 41 and 42 make of the answer of [func(url)]. *)
Definition after_func (ttl : Z) (url : string) (answer : res string * world)
  : res string * world :=
  match answer with
  | (Ok page_content, w) => (redis_setex url ttl page_content ;;; ret page_content) w
  | (Raise e, w) => (Raise e, w)
  end.

(** The call [wrapper(url)] gets as far as [func(url)]: the increment is
    accepted, and the call ends as lines 41 and 42 make of the answer of
    [func] in the world the increment leaves. *)
Definition calls_func (ttl : Z) (func : string -> M string) (url : string)
  (w : world) : Prop :=
  exists n w1,
    redis_incr ("count:" +:+ url) w = (Ok n, w1)
    /\ count_and_cache ttl func url w = after_func ttl url (func url w1).

(** No [GetPage] of the sequence is for [url]. *)
Definition avoids (url : string) (ops : list op) : bool :=
  forallb (fun o => match o with GetPage v => negb (String.eqb v url) | _ => true end) ops.

(** What one operation does to a counter of [url] that stands at [c]: a
    [get_page] on [url] adds one, until the largest value is reached. *)
Definition bump (url : string) (c : Z) (o : op) : Z :=
  match o with
  | GetPage v => if String.eqb v url && (c <? LLONG_MAX) then c + 1 else c
  | _ => c
  end.

(** Every [GetPage] of the sequence is for [url]. *)
Definition pages_only (url : string) (ops : list op) : bool :=
  forallb (fun o => match o with GetPage v => String.eqb v url | _ => true end) ops.

(** How many [get_page] calls the sequence makes in all. *)
Definition pages_of (ops : list op) : nat :=
  length (List.filter (fun o => match o with GetPage _ => true | _ => false end) ops).

(** How many times the sequence calls [get_page] on [url]. *)
Definition calls_of (url : string) (ops : list op) : nat :=
  length (List.filter
            (fun o => match o with GetPage v => String.eqb v url | _ => false end) ops).

(** ** Sample networks and stores *)

(** A network on which every request ends in a connection error after
    30 ms. *)
Definition web_down : nat -> string -> exchange :=
  fun _ _ => Exchange 30 (Fails ConnectionError).

(** A network with a few resources; requests take 5 ms.  The first request
    the process sends times out if it is for the resource [flaky].  The
    network would answer a request for ["count:y"], if one were sent. *)
Definition web_site : nat -> string -> exchange :=
  fun n url =>
    if String.eqb url "http://example.test/a"
    then Exchange 5 (Responds (Response 200 "HELLO"))
    else if String.eqb url "http://example.test/flaky"
    then Exchange 5 (if Nat.eqb n 0 then Fails Timeout
                     else Responds (Response 200 "LATE"))
    else if String.eqb url "http://example.test/empty"
    then Exchange 5 (Responds (Response 200 ""))
    else if String.eqb url "http://example.test/missing"
    then Exchange 5 (Responds (Response 404 "Not Found"))
    else if String.eqb url "count:y"
    then Exchange 5 (Responds (Response 200 "<html>"))
    else Exchange 5 (Fails ConnectionError).

(** A store that some client has filled: a page and an empty page, both
    expiring at 10 s, bytes that are no UTF-8, and three counters: one at
    3, one at the largest value, one that is no number and expires. *)
Definition preset : world :=
  {| redis :=
       <["http://example.test/a" := Entry "HELLO" (Some 10000%N)]>
       (<["http://example.test/empty" := Entry "" (Some 10000%N)]>
       (<["http://example.test/raw" := Entry (String (ascii_of_N 255) "") None]>
       (<["count:http://example.test/a" := Entry "3" None]>
       (<["count:full" := Entry "9223372036854775807" None]>
       (<["count:odd" := Entry "<html>" (Some 10000%N)]> ∅)))));
     clock := 1000;
     sent := [] |}.

(** * Properties *)

Example ll2string_ex : ll2string 42 = "42" /\ ll2string 0 = "0" /\ ll2string (-7) = "-7"
  /\ ll2string LLONG_MAX = "9223372036854775807".
Proof. repeat split; reflexivity. Qed.

Example string2ll_ex :
  string2ll "42" = Some 42 /\ string2ll "007" = None /\ string2ll "+1" = None
  /\ string2ll "-0" = None /\ string2ll "9223372036854775808" = None
  /\ string2ll "-9223372036854775808" = Some LLONG_MIN.
Proof. repeat split; reflexivity. Qed.

Example py_int_ex :
  py_int " 42 " = Some 42 /\ py_int "007" = Some 7 /\ py_int "+1_000" = Some 1000
  /\ py_int "1__0" = None /\ py_int "12_" = None /\ py_int "<html>" = None
  /\ py_int "- 1" = None /\ py_int "-5" = Some (-5).
Proof. repeat split; vm_compute; reflexivity. Qed.

(** ** Decimal round trips *)

Lemma N_of_digit_char d : (d < 10)%N -> N_of_ascii (digit_char d) = (48 + d)%N.
Proof. intros H. unfold digit_char. apply N_ascii_embedding. lia. Qed.

Lemma is_digit_digit_char d : (d < 10)%N -> is_digit (digit_char d) = true.
Proof.
  intros H. unfold is_digit. rewrite N_of_digit_char by assumption.
  apply andb_true_intro; split; apply N.leb_le; lia.
Qed.

Lemma digit_value_digit_char d : (d < 10)%N -> digit_value (digit_char d) = Z.of_N d.
Proof. intros H. unfold digit_value. rewrite N_of_digit_char by assumption. lia. Qed.

Lemma is_digit_code c : is_digit c = true -> (48 <= N_of_ascii c <= 57)%N.
Proof.
  unfold is_digit. intros H. apply andb_prop in H as [H1 H2].
  apply N.leb_le in H1. apply N.leb_le in H2. lia.
Qed.

Lemma digit_not c c' :
  is_digit c = true -> (N_of_ascii c' < 48 \/ 57 < N_of_ascii c')%N -> Ascii.eqb c c' = false.
Proof.
  intros Hd Hc. apply is_digit_code in Hd.
  destruct (Ascii.eqb_spec c c') as [->|]; [lia | reflexivity].
Qed.

Lemma digit_not_space c : is_digit c = true -> py_isspace c = false.
Proof.
  intros Hd. apply is_digit_code in Hd. unfold py_isspace.
  apply orb_false_intro; [apply andb_false_intro2 | ]; [apply N.leb_gt | apply N.eqb_neq]; lia.
Qed.

Lemma digits_acc_digits_of fuel : forall n acc,
  (n < 2 ^ N.of_nat (S fuel))%N ->
  exists p, forall a, digits_acc (digits_of fuel n acc) a = digits_acc acc (a * p + Z.of_N n).
Proof.
  assert (Last : forall n acc, (n / 10 = 0)%N -> forall a,
    digits_acc (String (digit_char (n mod 10)) acc) a = digits_acc acc (a * 10 + Z.of_N n)).
  { intros n acc Hq a. apply N.div_small_iff in Hq; [|lia].
    rewrite N.mod_small by assumption. simpl.
    rewrite is_digit_digit_char, digit_value_digit_char by assumption.
    f_equal. lia. }
  induction fuel as [|fuel IH]; intros n acc Hn.
  - exists 10. intros a. simpl digits_of. apply Last.
    apply N.div_small. change (2 ^ N.of_nat 1)%N with 2%N in Hn. lia.
  - simpl digits_of. destruct (N.eqb_spec (n / 10) 0) as [Hq|Hq].
    + exists 10. intros a. apply Last, Hq.
    + destruct (IH (n / 10)%N (String (digit_char (n mod 10)) acc)) as [p Hp].
      { rewrite Nat2N.inj_succ, N.pow_succ_r' in Hn.
        apply N.Div0.div_lt_upper_bound. lia. }
      exists (p * 10). intros a. rewrite Hp. simpl.
      assert (Hm : (n mod 10 < 10)%N) by (apply N.mod_lt; lia).
      rewrite is_digit_digit_char, digit_value_digit_char by assumption.
      f_equal. pose proof (N.div_mod n 10 ltac:(lia)). lia.
Qed.

Lemma digits_of_head fuel : forall n acc,
  (n < 2 ^ N.of_nat (S fuel))%N ->
  exists d ds, digits_of fuel n acc = String d ds /\ is_digit d = true
    /\ (n <> 0%N -> Ascii.eqb d "0" = false).
Proof.
  assert (Last : forall n acc, (n / 10 = 0)%N ->
    exists d ds, String (digit_char (n mod 10)) acc = String d ds /\ is_digit d = true
      /\ (n <> 0%N -> Ascii.eqb d "0" = false)).
  { intros n acc Hq. apply N.div_small_iff in Hq; [|lia].
    rewrite N.mod_small by assumption.
    exists (digit_char n), acc. split; [reflexivity|]. split.
    - apply is_digit_digit_char; assumption.
    - intros Hn. destruct (Ascii.eqb_spec (digit_char n) "0") as [E|]; [|reflexivity].
      apply (f_equal N_of_ascii) in E. rewrite N_of_digit_char in E by assumption.
      simpl in E. lia. }
  induction fuel as [|fuel IH]; intros n acc Hn.
  - simpl digits_of. apply Last. apply N.div_small.
    change (2 ^ N.of_nat 1)%N with 2%N in Hn. lia.
  - simpl digits_of. destruct (N.eqb_spec (n / 10) 0) as [Hq|Hq].
    + apply Last, Hq.
    + destruct (IH (n / 10)%N (String (digit_char (n mod 10)) acc)) as (d & ds & E & Hd & Hz).
      { rewrite Nat2N.inj_succ, N.pow_succ_r' in Hn.
        apply N.Div0.div_lt_upper_bound. lia. }
      exists d, ds. repeat split; auto.
Qed.

Lemma N_to_string_fuel n : (n < 2 ^ N.of_nat (S (N.to_nat (N.log2 n))))%N.
Proof.
  rewrite Nat2N.inj_succ, N2Nat.id.
  destruct n as [|p]; [reflexivity|]. apply N.log2_spec. lia.
Qed.

(** The printed form of [n]: a first digit, which is not 0 unless [n] is,
    and digits that read back as [n]. *)
Lemma N_to_string_spec n :
  exists d ds, N_to_string n = String d ds /\ is_digit d = true
    /\ (n <> 0%N -> Ascii.eqb d "0" = false)
    /\ digits_acc ds (digit_value d) = Some (Z.of_N n).
Proof.
  unfold N_to_string.
  destruct (digits_of_head _ n "" (N_to_string_fuel n)) as (d & ds & E & Hd & Hz).
  destruct (digits_acc_digits_of _ n "" (N_to_string_fuel n)) as [p Hp].
  exists d, ds. repeat split; auto.
  specialize (Hp 0). rewrite E in Hp. simpl in Hp. rewrite Hd in Hp. exact Hp.
Qed.

Lemma digits_acc_py_digits s : forall a v,
  digits_acc s a = Some v -> py_digits s a false = Some v.
Proof.
  induction s as [|c s IH]; intros a v H; simpl in *.
  - exact H.
  - destruct (is_digit c); [apply IH, H | discriminate].
Qed.

Lemma ll2string_head z :
  exists d ds, ll2string z = String d ds.
Proof.
  destruct z as [|p|p]; simpl.
  - destruct (N_to_string_spec 0) as (d & ds & E & _). eauto.
  - destruct (N_to_string_spec (Npos p)) as (d & ds & E & _). eauto.
  - eauto.
Qed.

Lemma py_literal_N_to_string n : py_literal (N_to_string n) = Some (Z.of_N n).
Proof.
  destruct (N_to_string_spec n) as (d & ds & E & Hd & _ & Hv).
  unfold py_literal. rewrite E. simpl lstrip. rewrite (digit_not_space d Hd).
  rewrite !(digit_not d) by (assumption || (simpl; lia)). simpl.
  rewrite Hd, (digits_acc_py_digits _ _ _ Hv). reflexivity.
Qed.

Lemma py_literal_ll2string z : py_literal (ll2string z) = Some z.
Proof.
  destruct z as [|p|p].
  - reflexivity.
  - simpl ll2string. rewrite py_literal_N_to_string. reflexivity.
  - simpl ll2string.
    destruct (N_to_string_spec (Npos p)) as (d & ds & E & Hd & _ & Hv).
    rewrite E. unfold py_literal. simpl. rewrite Hd, (digits_acc_py_digits _ _ _ Hv).
    reflexivity.
Qed.

(** So does the server, within the 64-bit range. *)
Lemma string2ll_ll2string z :
  LLONG_MIN <= z <= LLONG_MAX -> string2ll (ll2string z) = Some z.
Proof.
  intros Hz.
  assert (Hr : (LLONG_MIN <=? z) && (z <=? LLONG_MAX) = true).
  { apply andb_true_intro; split; apply Z.leb_le; lia. }
  destruct z as [|p|p].
  - reflexivity.
  - simpl ll2string.
    destruct (N_to_string_spec (Npos p)) as (d & ds & E & Hd & Hnz & Hv).
    rewrite E. unfold string2ll. rewrite Hnz by discriminate.
    rewrite (digit_not d "-") by (assumption || (simpl; lia)).
    rewrite Hd, Hnz by discriminate. simpl. rewrite Hv. simpl Z.of_N.
    cbv zeta. rewrite Hr. reflexivity.
  - simpl ll2string.
    destruct (N_to_string_spec (Npos p)) as (d & ds & E & Hd & Hnz & Hv).
    rewrite E. unfold string2ll. simpl Ascii.eqb. cbv iota.
    rewrite Hd, Hnz by discriminate. simpl. rewrite Hv. simpl Z.of_N.
    change (- Z.pos p) with (Z.neg p). rewrite Hr. reflexivity.
Qed.
(** The printed form of a 64-bit integer has few digits. *)
Lemma count_digits_digits_of fuel : forall n acc,
  (count_digits (digits_of fuel n acc) <= S fuel + count_digits acc)%nat.
Proof.
  assert (One : forall c acc, (count_digits (String c acc) <= 1 + count_digits acc)%nat)
    by (intros c acc; simpl; destruct (is_digit c); lia).
  induction fuel as [|fuel IH]; intros n acc; simpl digits_of.
  - apply One.
  - destruct (n / 10 =? 0)%N.
    + pose proof (One (digit_char (n mod 10)) acc). lia.
    + pose proof (IH (n / 10)%N (String (digit_char (n mod 10)) acc)).
      pose proof (One (digit_char (n mod 10)) acc). lia.
Qed.

Lemma count_digits_ll2string z :
  LLONG_MIN <= z <= LLONG_MAX -> (count_digits (ll2string z) <= max_str_digits)%nat.
Proof.
  intros Hz.
  assert (Hn : forall n, (n < 2 ^ 64)%N ->
            (count_digits (N_to_string n) <= max_str_digits)%nat).
  { intros n Hn. unfold N_to_string.
    pose proof (count_digits_digits_of (N.to_nat (N.log2 n)) n "") as H.
    simpl count_digits in H.
    assert (N.log2 n < 64)%N.
    { destruct n as [|p]; [reflexivity|]. apply N.log2_lt_pow2; [lia | exact Hn]. }
    unfold max_str_digits. lia. }
  unfold LLONG_MIN, LLONG_MAX in Hz.
  destruct z as [|p|p]; simpl ll2string.
  - apply Hn. reflexivity.
  - apply Hn. change (2 ^ 64)%N with 18446744073709551616%N. lia.
  - simpl count_digits. apply Hn. change (2 ^ 64)%N with 18446744073709551616%N. lia.
Qed.

(** [int()] reads back every integer that INCR can have written. *)
Lemma py_int_ll2string z :
  LLONG_MIN <= z <= LLONG_MAX -> py_int (ll2string z) = Some z.
Proof.
  intros Hz. unfold py_int. rewrite py_literal_ll2string.
  destruct (Nat.leb_spec (count_digits (ll2string z)) max_str_digits) as [_|H];
    [reflexivity|].
  pose proof (count_digits_ll2string z Hz). lia.
Qed.

Lemma digit_value_nonneg c : is_digit c = true -> 0 <= digit_value c <= 9.
Proof. intros H. apply is_digit_code in H. unfold digit_value. lia. Qed.

(** Digits read from the left weigh at least what the first ones weigh. *)
Lemma digits_acc_weight s : forall a v,
  digits_acc s a = Some v -> 0 <= a ->
  a * 10 ^ Z.of_nat (String.length s) <= v
  /\ count_digits s = String.length s.
Proof.
  induction s as [|c s IH]; intros a v H Ha; simpl in H.
  - injection H as <-. simpl. split; [lia | reflexivity].
  - destruct (is_digit c) eqn:Hd; [|discriminate].
    pose proof (digit_value_nonneg c Hd) as Hv.
    destruct (IH _ _ H ltac:(lia)) as [Hw Hc].
    split; [|simpl; rewrite Hd, Hc; reflexivity].
    change (String.length (String c s)) with (S (String.length s)).
    rewrite Nat2Z.inj_succ, Z.pow_succ_r by lia.
    assert (0 <= 10 ^ Z.of_nat (String.length s)) by (apply Z.pow_nonneg; lia).
    nia.
Qed.

Lemma ten_pow_19 n : (19 <= n)%nat -> LLONG_MAX + 1 < 10 ^ Z.of_nat n.
Proof.
  intros H.
  assert (10 ^ 19 <= 10 ^ Z.of_nat n) by (apply Z.pow_le_mono_r; lia).
  assert (LLONG_MAX + 1 < 10 ^ 19) by reflexivity. lia.
Qed.

Lemma string2ll_range s n : string2ll s = Some n -> LLONG_MIN <= n <= LLONG_MAX.
Proof.
  unfold string2ll. destruct s as [|c rest]; [discriminate|].
  destruct (Ascii.eqb c "0").
  - destruct rest; [|discriminate]. intros [= <-]. unfold LLONG_MIN, LLONG_MAX. lia.
  - destruct (if Ascii.eqb c "-" then rest else String c rest) as [|d ds]; [discriminate|].
    destruct (is_digit d && negb (Ascii.eqb d "0")); [|discriminate].
    destruct (digits_acc ds (digit_value d)) as [v|]; [|discriminate].
    cbv zeta.
    destruct (Z.leb_spec LLONG_MIN (if Ascii.eqb c "-" then - v else v));
      [|discriminate].
    destruct (Z.leb_spec (if Ascii.eqb c "-" then - v else v) LLONG_MAX);
      [|discriminate].
    simpl. intros [= <-]. lia.
Qed.

(** Whatever the server accepts as an integer, [int()] reads as the same
    integer. *)
Lemma string2ll_py_literal s n :
  string2ll s = Some n ->
  py_literal s = Some n /\ (count_digits s <= max_str_digits)%nat.
Proof.
  intros H. pose proof (string2ll_range s n H) as Hr. revert H.
  unfold string2ll. destruct s as [|c rest]; [discriminate|].
  destruct (Ascii.eqb_spec c "0") as [->|Hc0].
  - destruct rest; [|discriminate]. intros [= <-].
    split; [reflexivity | unfold max_str_digits; simpl; lia].
  - assert (Short : forall d ds v, is_digit d = true -> Ascii.eqb d "0" = false ->
              digits_acc ds (digit_value d) = Some v -> v <= LLONG_MAX + 1 ->
              (String.length ds < 19)%nat /\ count_digits ds = String.length ds).
    { intros d ds v Hd Hz Hv Hle.
      pose proof (digit_value_nonneg d Hd) as Hdv.
      assert (1 <= digit_value d).
      { destruct (Z.eq_dec (digit_value d) 0) as [E|E]; [|lia].
        apply is_digit_code in Hd. unfold digit_value in E.
        assert (E' : d = "0"%char).
        { rewrite <- (ascii_N_embedding d). replace (N_of_ascii d) with 48%N by lia.
          reflexivity. }
        subst d. discriminate. }
      destruct (digits_acc_weight ds _ v Hv ltac:(lia)) as [Hw Hc].
      split; [|exact Hc].
      destruct (Nat.lt_ge_cases (String.length ds) 19) as [|Hge]; [assumption|].
      pose proof (ten_pow_19 _ Hge).
      assert (0 <= 10 ^ Z.of_nat (String.length ds)) by (apply Z.pow_nonneg; lia).
      nia. }
    destruct (Ascii.eqb_spec c "-") as [->|Hcm].
    + destruct rest as [|d ds]; [discriminate|].
      destruct (is_digit d) eqn:Hd; [|discriminate].
      destruct (Ascii.eqb d "0") eqn:Hz; [discriminate|]. simpl.
      destruct (digits_acc ds (digit_value d)) as [v|] eqn:Hv; [|discriminate].
      destruct (_ && _); [|discriminate]. intros [= <-].
      destruct (Short d ds v Hd Hz Hv) as [Hlen Hcnt];
        [unfold LLONG_MIN, LLONG_MAX in *; lia|].
      split.
      * unfold py_literal. simpl. rewrite Hd, (digits_acc_py_digits _ _ _ Hv). reflexivity.
      * simpl. rewrite Hd, Hcnt. unfold max_str_digits. lia.
    + destruct (is_digit c) eqn:Hd; [|discriminate].
      destruct (Ascii.eqb c "0") eqn:Hz; [discriminate|]. simpl.
      destruct (digits_acc rest (digit_value c)) as [v|] eqn:Hv; [|discriminate].
      destruct (_ && _); [|discriminate]. intros [= <-].
      destruct (Short c rest v Hd Hz Hv) as [Hlen Hcnt]; [lia|].
      split.
      * unfold py_literal. simpl lstrip. rewrite (digit_not_space c Hd).
        rewrite !(digit_not c) by (assumption || (simpl; lia)). simpl.
        rewrite Hd, (digits_acc_py_digits _ _ _ Hv). reflexivity.
      * simpl. rewrite Hd, Hcnt. unfold max_str_digits. lia.
Qed.

Lemma string2ll_py_int s n : string2ll s = Some n -> py_int s = Some n.
Proof.
  intros H. destruct (string2ll_py_literal s n H) as [Hl Hc].
  unfold py_int. rewrite Hl.
  destruct (Nat.leb_spec (count_digits s) max_str_digits); [reflexivity | lia].
Qed.

Lemma string2ll_nonempty s n : string2ll s = Some n -> s <> "".
Proof. destruct s; [discriminate | discriminate]. Qed.

(** ** Keys *)

Lemma count_key_spec u : count_key u = "count:" +:+ u.
Proof. reflexivity. Qed.

Lemma count_key_ne u : "count:" +:+ u <> u.
Proof.
  intros E. apply (f_equal String.length) in E.
  change (String.length ("count:" +:+ u)) with (6 + String.length u)%nat in E. lia.
Qed.

Lemma count_key_inj u v : "count:" +:+ u = "count:" +:+ v -> u = v.
Proof. simpl. intros E. injection E. auto. Qed.

Lemma count_key_prefix u : String.prefix "count:" ("count:" +:+ u) = true.
Proof. simpl. destruct u; reflexivity. Qed.

(** ** The server's commands *)

Lemma find_frame k w w' :
  redis w' !! k = redis w !! k -> clock w' = clock w -> find k w' = find k w.
Proof. unfold find. intros -> ->. reflexivity. Qed.

(** Once nothing is found under a key, nothing is found later either,
    unless the key is written. *)
Lemma find_None_later k w w' :
  find k w = None -> redis w' !! k = redis w !! k -> (clock w <= clock w')%N ->
  find k w' = None.
Proof.
  unfold find, live. intros H -> Hc.
  destruct (redis w !! k) as [e|]; [|reflexivity].
  destruct (expire_at e) as [t|]; [|discriminate].
  destruct (N.ltb_spec t (clock w)); [|discriminate].
  destruct (N.ltb_spec t (clock w')); [reflexivity | lia].
Qed.

(** What is found under a key with an expiry, before and after it. *)
Lemma find_deadline k v t w d :
  redis w !! k = Some (Entry v (Some t)) ->
  find k (sleep d w) = if (t <? clock w + d)%N then None else Some (Entry v (Some t)).
Proof.
  intros H. unfold find, live. simpl. rewrite H. simpl.
  destruct (t <? clock w + d)%N; reflexivity.
Qed.

Lemma counter_at_frame u c w w' :
  counter_at u c w ->
  redis w' !! ("count:" +:+ u) = redis w !! ("count:" +:+ u) ->
  (clock w <= clock w')%N -> counter_at u c w'.
Proof.
  intros [[-> H]|[Hc H]] E Hclock.
  - left. split; [reflexivity|]. eapply find_None_later; eauto.
  - right. split; [assumption|]. congruence.
Qed.

Lemma counter_at_find u c w :
  counter_at u c w -> 1 <= c ->
  find ("count:" +:+ u) w = Some (Entry (ll2string c) None).
Proof.
  intros [[-> _]|[_ H]] Hc; [lia|]. unfold find. rewrite H. reflexivity.
Qed.

Lemma counter_at_fresh u t0 : counter_at u 0 (fresh t0).
Proof. left. split; reflexivity. Qed.

Lemma counter_at_nonneg u c w : counter_at u c w -> 0 <= c <= LLONG_MAX.
Proof. intros [[-> _]|[? _]]; unfold LLONG_MAX in *; lia. Qed.

Lemma redis_incr_frame k w :
  (forall k', k' <> k -> redis (snd (redis_incr k w)) !! k' = redis w !! k')
  /\ clock (snd (redis_incr k w)) = clock w
  /\ sent (snd (redis_incr k w)) = sent w.
Proof.
  unfold redis_incr.
  destruct (find k w) as [e|]; [destruct (string2ll (value e)) as [n|];
    [destruct (n <? LLONG_MAX)|]|]; simpl; repeat split; auto;
    intros k' Hk; apply lookup_insert_ne; congruence.
Qed.

Lemma redis_incr_keeps_keys k w k' :
  is_Some (redis w !! k') -> is_Some (redis (snd (redis_incr k w)) !! k').
Proof.
  intros H. unfold redis_incr.
  destruct (find k w) as [e|]; [destruct (string2ll (value e)) as [n|];
    [destruct (n <? LLONG_MAX)|]|]; simpl; auto;
    (destruct (decide (k = k')) as [->|Hne];
     [rewrite lookup_insert_eq; eauto | rewrite lookup_insert_ne by assumption; auto]).
Qed.

(** A refused INCR changes nothing. *)
Lemma redis_incr_refused k w e w1 : redis_incr k w = (Raise e, w1) -> w1 = w.
Proof.
  unfold redis_incr.
  destruct (find k w) as [x|]; [destruct (string2ll (value x)) as [n|];
    [destruct (n <? LLONG_MAX)|]|]; congruence.
Qed.

(** What an accepted INCR leaves under its key: a 64-bit integer in
    decimal. *)
Lemma redis_incr_value k w n w1 :
  redis_incr k w = (Ok n, w1) ->
  LLONG_MIN <= n <= LLONG_MAX
  /\ exists t, redis w1 !! k = Some (Entry (ll2string n) t).
Proof.
  unfold redis_incr.
  destruct (find k w) as [e|].
  - destruct (string2ll (value e)) as [m|] eqn:Hm; [|discriminate].
    apply string2ll_range in Hm.
    destruct (Z.ltb_spec m LLONG_MAX); [|discriminate].
    intros [= <- <-]. split; [lia|]. exists (expire_at e). simpl. apply lookup_insert_eq.
  - intros [= <- <-]. split; [unfold LLONG_MIN, LLONG_MAX; lia|].
    exists None. simpl. apply lookup_insert_eq.
Qed.

(** The increment leaves the content key of the URL as it finds it. *)
Lemma redis_incr_content u w :
  find u (snd (redis_incr ("count:" +:+ u) w)) = find u w.
Proof.
  destruct (redis_incr_frame ("count:" +:+ u) w) as (Hk & Hc & _).
  apply find_frame; [|assumption]. apply Hk.
  pose proof (count_key_ne u). congruence.
Qed.

(** INCR on a counter: one more, still persistent. *)
Lemma redis_incr_counter u c w :
  counter_at u c w -> c < LLONG_MAX ->
  redis_incr ("count:" +:+ u) w
  = (Ok (c + 1), store ("count:" +:+ u) (Entry (ll2string (c + 1)) None) w).
Proof.
  intros H Hc. unfold redis_incr. destruct H as [[-> H]|[Hr H]].
  - rewrite H. reflexivity.
  - unfold find. rewrite H. cbn [live expire_at value].
    rewrite string2ll_ll2string by (unfold LLONG_MIN; lia).
    destruct (Z.ltb_spec c LLONG_MAX); [reflexivity | lia].
Qed.

(** INCR on a counter that has reached the largest value is refused. *)
Lemma redis_incr_full u w :
  counter_at u LLONG_MAX w ->
  redis_incr ("count:" +:+ u) w
  = (Raise (ResponseError "increment or decrement would overflow"), w).
Proof.
  intros H. unfold redis_incr.
  rewrite (counter_at_find _ _ _ H) by (unfold LLONG_MAX; lia). cbn [value].
  rewrite string2ll_ll2string by (unfold LLONG_MIN, LLONG_MAX; lia).
  reflexivity.
Qed.

Lemma counter_at_store u c w :
  1 <= c <= LLONG_MAX ->
  counter_at u c (store ("count:" +:+ u) (Entry (ll2string c) None) w).
Proof. intros Hc. right. split; [assumption|]. simpl. apply lookup_insert_eq. Qed.

(** What the increment leaves of the world: the content key, the clock and
    the requests sent are as before. *)
Lemma incr_counter_view u c w :
  counter_at u c w -> c < LLONG_MAX ->
  exists w1,
    redis_incr ("count:" +:+ u) w = (Ok (c + 1), w1)
    /\ find u w1 = find u w /\ clock w1 = clock w /\ sent w1 = sent w
    /\ (forall k, k <> "count:" +:+ u -> redis w1 !! k = redis w !! k)
    /\ counter_at u (c + 1) w1.
Proof.
  intros H Hc. pose proof (redis_incr_counter _ _ _ H Hc) as Hi.
  pose proof (counter_at_nonneg _ _ _ H).
  eexists. split; [exact Hi|].
  assert (Hk : forall k, k <> "count:" +:+ u ->
            redis (store ("count:" +:+ u) (Entry (ll2string (c + 1)) None) w) !! k
            = redis w !! k)
    by (intros k Hk; simpl; apply lookup_insert_ne; congruence).
  repeat split; auto.
  - apply find_frame; [|reflexivity]. apply Hk. pose proof (count_key_ne u). congruence.
  - apply counter_at_store. lia.
Qed.

(** ** Reading the counter *)

Lemma truthy_Some s : s <> "" -> truthy (Some s) = true.
Proof. destruct s; [congruence | reflexivity]. Qed.

Lemma truthy_value f :
  truthy (value <$> f) = true -> exists e, f = Some e /\ value e <> "".
Proof.
  destruct f as [e|]; [|discriminate]. simpl. intros H. exists e. split; [reflexivity|].
  destruct (value e); [discriminate | easy].
Qed.

Lemma get_count_world u w : snd (get_count u w) = w.
Proof.
  unfold get_count, bind, redis_get, int_of_bytes, ret, raise.
  destruct (truthy _); [destruct (py_int _)|]; reflexivity.
Qed.

(** What [get_count] makes of the bytes it finds. *)
Lemma get_count_found u w e :
  find ("count:" +:+ u) w = Some e -> value e <> "" ->
  get_count u w
  = (match py_int (value e) with Some n => Ok n | None => Raise ValueError end, w).
Proof.
  intros H Hv. unfold get_count, bind, redis_get.
  change (count_key u) with ("count:" +:+ u). rewrite H.
  cbn [fmap option_fmap option_map]. rewrite truthy_Some by assumption.
  unfold int_of_bytes. change (default "" (Some (value e))) with (value e).
  destruct (py_int (value e)); reflexivity.
Qed.

Lemma get_count_absent u w :
  find ("count:" +:+ u) w = None -> get_count u w = (Ok 0, w).
Proof.
  intros H. unfold get_count, bind, redis_get.
  change (count_key u) with ("count:" +:+ u). rewrite H. reflexivity.
Qed.

Lemma get_count_counter u c w : counter_at u c w -> get_count u w = (Ok c, w).
Proof.
  intros H. pose proof (counter_at_nonneg _ _ _ H) as Hr.
  destruct (Z.eq_dec c 0) as [->|Hc].
  - destruct H as [[_ H]|[? _]]; [|lia]. apply get_count_absent, H.
  - rewrite (get_count_found u w _ (counter_at_find _ _ _ H ltac:(lia))).
    + cbn [value]. rewrite py_int_ll2string by (unfold LLONG_MIN; lia). reflexivity.
    + cbn [value]. destruct (ll2string_head c) as (d & ds & E). rewrite E. discriminate.
Qed.

(** ** One call of the wrapper *)

Lemma decode_world b w : snd (decode b w) = w.
Proof. unfold decode, ret, raise. destruct (utf8_valid _); reflexivity. Qed.

Lemma decode_result s w :
  fst (decode (Some s) w) = if utf8_valid s then Ok s else Raise UnicodeDecodeError.
Proof. unfold decode, ret, raise. simpl. destruct (utf8_valid s); reflexivity. Qed.

(** What SETEX after [func] leaves of the world [func] ends in. *)
Lemma after_func_frame ttl u a w2 :
  (forall k, k <> u -> redis (snd (after_func ttl u (a, w2))) !! k = redis w2 !! k)
  /\ (forall k, is_Some (redis w2 !! k) ->
        is_Some (redis (snd (after_func ttl u (a, w2))) !! k))
  /\ clock (snd (after_func ttl u (a, w2))) = clock w2
  /\ sent (snd (after_func ttl u (a, w2))) = sent w2.
Proof.
  destruct a as [p|e]; simpl; [|auto].
  unfold bind, redis_setex, ret. destruct (setex_accepts ttl (clock w2)); simpl.
  - repeat split; auto.
    + intros k Hk. apply lookup_insert_ne. congruence.
    + intros k Hk. destruct (decide (u = k)) as [->|Hne];
        [rewrite lookup_insert_eq; eauto | rewrite lookup_insert_ne by assumption; auto].
  - auto.
Qed.

Lemma after_func_raise ttl u e w2 : after_func ttl u (Raise e, w2) = (Raise e, w2).
Proof. reflexivity. Qed.



Section OneCall.

Variable ttl : Z.
Variable func : string -> M string.

Local Abbreviation page := (count_and_cache ttl func).

(** The three ways a call goes on after the increment. *)
Lemma page_refused u w e w1 :
  redis_incr ("count:" +:+ u) w = (Raise e, w1) -> page u w = (Raise e, w1).
Proof.
  intros H. unfold count_and_cache, bind. change (count_key u) with ("count:" +:+ u).
  rewrite H. reflexivity.
Qed.

Lemma page_hit u w n w1 e :
  redis_incr ("count:" +:+ u) w = (Ok n, w1) ->
  find u w1 = Some e -> value e <> "" ->
  page u w = decode (Some (value e)) w1.
Proof.
  intros Hi Hf Hv. unfold count_and_cache, bind, redis_get.
  change (count_key u) with ("count:" +:+ u). rewrite Hi, Hf.
  cbn [fmap option_fmap option_map]. rewrite truthy_Some by assumption.
  reflexivity.
Qed.

Lemma page_miss u w n w1 :
  redis_incr ("count:" +:+ u) w = (Ok n, w1) ->
  truthy (value <$> find u w1) = false ->
  page u w = after_func ttl u (func u w1).
Proof.
  intros Hi Hf. unfold count_and_cache, bind, redis_get.
  change (count_key u) with ("count:" +:+ u). rewrite Hi, Hf.
  unfold after_func, bind. destruct (func u w1) as [[p|e] w2]; reflexivity.
Qed.

(** Whether the call goes through [func] depends on the entry alone, once
    the increment is accepted. *)
Lemma page_miss_calls_func u c w :
  counter_at u c w -> c < LLONG_MAX ->
  truthy (value <$> find u w) = false ->
  calls_func ttl func u w.
Proof.
  intros H Hc Ht.
  destruct (incr_counter_view u c w H Hc) as (w1 & Hi & Hf1 & _).
  exists (c + 1), w1. split; [exact Hi|].
  apply (page_miss u w _ w1 Hi). rewrite Hf1. exact Ht.
Qed.

(** A hit: the cached bytes are decoded, and nothing but the counter
    moves. *)
Lemma page_hit_view u c w e :
  counter_at u c w -> c < LLONG_MAX ->
  find u w = Some e -> value e <> "" ->
  fst (page u w) = (if utf8_valid (value e) then Ok (value e) else Raise UnicodeDecodeError)
  /\ sent (snd (page u w)) = sent w
  /\ clock (snd (page u w)) = clock w
  /\ (forall k, k <> "count:" +:+ u -> redis (snd (page u w)) !! k = redis w !! k)
  /\ counter_at u (c + 1) (snd (page u w)).
Proof.
  intros H Hc Hf Hv.
  destruct (incr_counter_view u c w H Hc) as (w1 & Hi & Hf1 & Hc1 & Hs1 & Hk1 & H1).
  rewrite <- Hf1 in Hf. rewrite (page_hit u w _ w1 e Hi Hf Hv).
  rewrite decode_world, decode_result. repeat split; assumption.
Qed.

Hypothesis func_fetcher : fetcher func.

(** The world after a call, seen from the world before it. *)
Lemma page_world u w :
  (forall k, k <> u -> k <> "count:" +:+ u -> redis (snd (page u w)) !! k = redis w !! k)
  /\ (forall k, is_Some (redis w !! k) -> is_Some (redis (snd (page u w)) !! k))
  /\ (clock w <= clock (snd (page u w)))%N
  /\ (sent (snd (page u w)) = sent w \/ sent (snd (page u w)) = (sent w ++ [u])%list)
  /\ redis (snd (page u w)) !! ("count:" +:+ u)
     = redis (snd (redis_incr ("count:" +:+ u) w)) !! ("count:" +:+ u).
Proof.
  destruct (redis_incr_frame ("count:" +:+ u) w) as (Hk & Hc & Hs).
  pose proof (redis_incr_keeps_keys ("count:" +:+ u) w) as Hkeep.
  pose proof (count_key_ne u) as Hne.
  destruct (redis_incr ("count:" +:+ u) w) as [[n|e] w1] eqn:Hi; simpl in *.
  - destruct (truthy (value <$> find u w1)) eqn:Ht.
    + destruct (truthy_value _ Ht) as (e & Hf & Hv).
      rewrite (page_hit u w _ w1 e Hi Hf Hv), decode_world.
      repeat split; auto. lia.
    + rewrite (page_miss u w _ w1 Hi Ht).
      destruct (func u w1) as [a w2] eqn:Hfu.
      destruct (after_func_frame ttl u a w2) as (Ak & Akeep & Ac & As).
      pose proof (fetch_store _ func_fetcher u w1) as Fr.
      pose proof (fetch_clock _ func_fetcher u w1) as Fc.
      pose proof (fetch_sent _ func_fetcher u w1) as Fs.
      rewrite Hfu in Fr, Fc, Fs. simpl in Fr, Fc, Fs.
      repeat split.
      * intros k H1 H2. rewrite Ak, Fr by assumption. auto.
      * intros k H1. apply Akeep. rewrite Fr. auto.
      * rewrite Ac. lia.
      * rewrite As, <- Hs. exact Fs.
      * rewrite Ak, Fr by congruence. reflexivity.
  - rewrite (page_refused u w _ w1 Hi). simpl. repeat split; auto. lia.
Qed.

Lemma page_frame u w :
  (forall k, k <> u -> k <> "count:" +:+ u -> redis (snd (page u w)) !! k = redis w !! k)
  /\ (clock w <= clock (snd (page u w)))%N.
Proof. destruct (page_world u w) as (H1 & _ & H3 & _). auto. Qed.

Lemma page_counter_key u w :
  redis (snd (page u w)) !! ("count:" +:+ u)
  = redis (snd (redis_incr ("count:" +:+ u) w)) !! ("count:" +:+ u).
Proof. apply page_world. Qed.

Lemma page_sent u w :
  sent (snd (page u w)) = sent w \/ sent (snd (page u w)) = (sent w ++ [u])%list.
Proof. apply page_world. Qed.

(** Under the URL itself only a page that [func] returns is written. *)
Lemma page_content_key u w :
  (forall w', exists x, fst (func u w') = Raise x) ->
  redis (snd (page u w)) !! u = redis w !! u.
Proof.
  intros Hx. pose proof (count_key_ne u) as Hne.
  destruct (redis_incr_frame ("count:" +:+ u) w) as (Hk & _ & _).
  destruct (redis_incr ("count:" +:+ u) w) as [[n|e] w1] eqn:Hi; simpl in Hk.
  - destruct (truthy (value <$> find u w1)) eqn:Ht.
    + destruct (truthy_value _ Ht) as (e & Hf & Hv).
      rewrite (page_hit u w _ w1 e Hi Hf Hv), decode_world. apply Hk. congruence.
    + rewrite (page_miss u w _ w1 Hi Ht).
      destruct (Hx w1) as [x Hfx]. pose proof (fetch_store _ func_fetcher u w1) as Fr.
      destruct (func u w1) as [a w2]. simpl in Hfx, Fr. subst a. simpl.
      rewrite Fr. apply Hk. congruence.
  - rewrite (page_refused u w _ w1 Hi). simpl. apply Hk. congruence.
Qed.

(** Every call on [u] counts, whatever becomes of it. *)
Lemma page_counts u c w :
  counter_at u c w -> c < LLONG_MAX -> counter_at u (c + 1) (snd (page u w)).
Proof.
  intros H Hc. pose proof (counter_at_nonneg _ _ _ H).
  pose proof (redis_incr_counter _ _ _ H Hc) as Hi.
  right. split; [lia|]. rewrite page_counter_key, Hi. simpl. apply lookup_insert_eq.
Qed.

(** At the largest value the call is refused and changes nothing. *)
Lemma page_full u w :
  counter_at u LLONG_MAX w ->
  page u w = (Raise (ResponseError "increment or decrement would overflow"), w).
Proof. intros H. apply page_refused, redis_incr_full, H. Qed.

(** A call on another URL leaves the counter of [u] alone, unless the
    URL spells the counter key of [u] and [func] returns a page for it. *)
Lemma page_other u v c w :
  v <> u ->
  (v = "count:" +:+ u -> forall w', exists x, fst (func v w') = Raise x) ->
  counter_at u c w -> counter_at u c (snd (page v w)).
Proof.
  intros Hv Hserve H. destruct (page_frame v w) as [Hk Hc].
  apply (counter_at_frame _ _ w); [assumption | | assumption].
  destruct (decide ("count:" +:+ u = v)) as [E|E].
  - rewrite E. apply page_content_key. apply Hserve. congruence.
  - apply Hk; [assumption|]. intros E'. apply count_key_inj in E'. congruence.
Qed.


End OneCall.

Lemma sleep_counter u c d w : counter_at u c w -> counter_at u c (sleep d w).
Proof. intros H. apply (counter_at_frame _ _ w); [assumption|reflexivity|simpl; lia]. Qed.

(** On a hit the wrapper neither calls [func] nor uses [ttl]. *)
Lemma page_hit_any ttl ttl' (func func' : string -> M string) u w :
  truthy (value <$> find u w) = true ->
  count_and_cache ttl func u w = count_and_cache ttl' func' u w.
Proof.
  intros Ht. unfold count_and_cache, bind, redis_get.
  pose proof (redis_incr_content u w) as Hf.
  change (count_key u) with ("count:" +:+ u).
  destruct (redis_incr ("count:" +:+ u) w) as [[n|e] w1]; [|reflexivity].
  simpl in Hf. rewrite Hf, Ht. reflexivity.
Qed.

(** ** The functions the wrapper is given *)

(** [func(url)] with the function of line 47 binds [url] to [self] and
    nothing to [url]. *)
Lemma func_of_get_page_raises web url w :
  func_of_get_page web url w = (Raise TypeError, w).
Proof. reflexivity. Qed.

Lemma func_of_get_page_fetcher web : fetcher (func_of_get_page web).
Proof. split; intros url w; rewrite func_of_get_page_raises; simpl; auto; lia. Qed.

Lemma func_of_get_page_refuses web : refuses_count_urls (func_of_get_page web).
Proof. intros url w. rewrite func_of_get_page_raises. eauto. Qed.

Lemma fetch_fetcher web : fetcher (fetch web).
Proof.
  split; intros url w; unfold fetch, get_page_wrapped, bind, requests_get;
    destruct (no_adapter url); simpl; auto; try lia;
    destruct (outcome (web (length (sent w)) url)); simpl; auto; lia.
Qed.

Lemma no_adapter_count url : no_adapter ("count:" +:+ url) = true.
Proof.
  unfold no_adapter. simpl. reflexivity.
Qed.

Lemma fetch_refuses web : refuses_count_urls (fetch web).
Proof.
  intros url w. unfold fetch, get_page_wrapped, bind, requests_get.
  rewrite no_adapter_count. eauto.
Qed.

(** The decimal form of a counter is ASCII, so [decode] takes it. *)
Lemma digits_acc_utf8 s : forall acc v lo hi,
  digits_acc s acc = Some v -> utf8_scan s 0 lo hi = true.
Proof.
  induction s as [|c s IH]; intros acc v lo hi H; [reflexivity|].
  simpl in H. destruct (is_digit c) eqn:Hd; [|discriminate].
  apply is_digit_code in Hd. simpl.
  destruct (N.ltb_spec (N_of_ascii c) 128); [|lia].
  eapply IH, H.
Qed.

Lemma utf8_valid_counter c : 0 <= c -> utf8_valid (ll2string c) = true.
Proof.
  intros Hc.
  assert (E : ll2string c = N_to_string (Z.to_N c)) by (destruct c; [reflexivity..|lia]).
  rewrite E. destruct (N_to_string_spec (Z.to_N c)) as (d & ds & -> & Hd & _ & Hv).
  apply is_digit_code in Hd. unfold utf8_valid. simpl.
  destruct (N.ltb_spec (N_of_ascii d) 128); [|lia].
  eapply digits_acc_utf8, Hv.
Qed.

(** A URL that spells the counter key of [x] is answered, at a hit, with
    the digits of that counter. *)
Lemma page_reads_counter ttl func x c c' w :
  counter_at x c w -> 1 <= c ->
  counter_at ("count:" +:+ x) c' w -> c' < LLONG_MAX ->
  fst (count_and_cache ttl func ("count:" +:+ x) w) = Ok (ll2string c)
  /\ sent (snd (count_and_cache ttl func ("count:" +:+ x) w)) = sent w.
Proof.
  intros H Hc H' Hc'.
  pose proof (counter_at_find x c w H Hc) as Hf.
  destruct (page_hit_view ttl func ("count:" +:+ x) c' w _ H' Hc' Hf) as (Hr & Hs & _).
  { cbn [value]. destruct (ll2string_head c) as (d & ds & E). rewrite E. discriminate. }
  cbn [value] in Hr. rewrite utf8_valid_counter in Hr by lia. auto.
Qed.
(** ** Sequences of calls *)

Section Runs.

Variable ttl : Z.
Variable func : string -> M string.
Hypothesis func_fetcher : fetcher func.

Lemma bump_ge u c o : c <= bump u c o.
Proof. destruct o; simpl; try lia. destruct (_ && _); lia. Qed.

Lemma fold_bump_ge u ops : forall c, c <= fold_left (bump u) ops c.
Proof.
  induction ops as [|o ops IH]; intros c; simpl; [lia|].
  pose proof (bump_ge u c o). pose proof (IH (bump u c o)). lia.
Qed.

(** Without overflow the counter advances by the number of calls. *)
Lemma fold_bump_calls u ops : forall c,
  c + Z.of_nat (calls_of u ops) <= LLONG_MAX ->
  fold_left (bump u) ops c = c + Z.of_nat (calls_of u ops).
Proof.
  unfold calls_of.
  induction ops as [|o ops IH]; intros c Hc; simpl in *; [lia|].
  destruct o as [v| |]; simpl in *; try (apply IH; assumption).
  destruct (String.eqb v u); simpl in *; [|apply IH; assumption].
  destruct (Z.ltb_spec c LLONG_MAX); [|lia].
  rewrite IH by lia. lia.
Qed.

Lemma fold_bump_full u ops : fold_left (bump u) ops LLONG_MAX = LLONG_MAX.
Proof.
  induction ops as [|o ops IH]; simpl; [reflexivity|].
  replace (bump u LLONG_MAX o) with LLONG_MAX; [exact IH|].
  destruct o; simpl; try reflexivity.
  destruct (String.eqb url u); reflexivity.
Qed.

(** One operation moves the counter of [u] as [bump] says, provided a
    call on the URL that spells the counter key of [u] gets no page from
    [func]. *)
Lemma step_counter u c o w :
  counter_at u c w ->
  (o = GetPage ("count:" +:+ u) ->
   forall w', exists x, fst (func ("count:" +:+ u) w') = Raise x) ->
  counter_at u (bump u c o) (step ttl func w o).
Proof.
  intros H Ho. destruct o as [v|v|d]; simpl.
  - destruct (String.eqb_spec v u) as [->|Hv]; simpl.
    + destruct (Z.ltb_spec c LLONG_MAX) as [Hc|Hc].
      * apply page_counts; assumption.
      * pose proof (counter_at_nonneg _ _ _ H).
        assert (c = LLONG_MAX) as -> by lia.
        rewrite page_full by assumption. assumption.
    + apply page_other; [assumption | assumption | | assumption].
      intros ->. apply Ho. reflexivity.
  - rewrite get_count_world. assumption.
  - apply sleep_counter. assumption.
Qed.

Lemma run_counter u ops : forall c w,
  counter_at u c w ->
  (refuses_count_urls func \/ avoids ("count:" +:+ u) ops = true) ->
  counter_at u (fold_left (bump u) ops c) (run ttl func ops w).
Proof.
  induction ops as [|o ops IH]; intros c w H Hs; simpl; [assumption|].
  apply IH.
  - apply step_counter; [assumption|]. intros ->.
    destruct Hs as [Hs|Hs]; [intros w'; apply Hs|].
    simpl in Hs. rewrite String.eqb_refl in Hs. discriminate.
  - destruct Hs as [Hs|Hs]; [left; assumption|right].
    simpl in Hs. apply andb_prop in Hs. tauto.
Qed.

Lemma step_clock w o : (clock w <= clock (step ttl func w o))%N.
Proof.
  destruct o as [v|v|d]; simpl.
  - apply page_frame, func_fetcher.
  - rewrite get_count_world. lia.
  - lia.
Qed.

Lemma run_clock ops : forall w, (clock w <= clock (run ttl func ops w))%N.
Proof.
  induction ops as [|o ops IH]; intros w; simpl; [lia|].
  pose proof (step_clock w o). pose proof (IH (step ttl func w o)). lia.
Qed.

(** A live, non-empty entry is left as written by a call on its URL, and
    the call sends nothing. *)
Lemma step_keeps_entry u v D w o :
  redis w !! u = Some (Entry v (Some D)) -> v <> "" ->
  (match o with GetPage x => String.eqb x u | _ => true end) = true ->
  (clock w <= D)%N ->
  redis (step ttl func w o) !! u = Some (Entry v (Some D))
  /\ sent (step ttl func w o) = sent w.
Proof.
  intros He Hv Ho Hc. destruct o as [x|x|d]; simpl.
  - apply String.eqb_eq in Ho. subst x.
    assert (Hf : find u w = Some (Entry v (Some D))).
    { unfold find, live. rewrite He. simpl.
      destruct (N.ltb_spec D (clock w)); [lia|reflexivity]. }
    pose proof (redis_incr_content u w) as Hf1.
    destruct (redis_incr_frame ("count:" +:+ u) w) as (Hk & _ & Hs).
    pose proof (count_key_ne u) as Hne.
    destruct (redis_incr ("count:" +:+ u) w) as [[n|e] w1] eqn:Hi; simpl in *.
    + rewrite Hf in Hf1.
      rewrite (page_hit ttl func _ _ _ _ _ Hi Hf1 Hv), decode_world.
      split; [rewrite Hk by congruence; exact He | exact Hs].
    + rewrite (page_refused ttl func _ _ _ _ Hi). simpl.
      split; [rewrite Hk by congruence; exact He | exact Hs].
  - rewrite get_count_world. auto.
  - auto.
Qed.

End Runs.

(** After a call of the wrapper that got past the increment, the counter
    key holds a number, if it still holds anything: [get_count] returns. *)
Lemma get_count_after_incr ttl func u w n w1 :
  fetcher func ->
  redis_incr ("count:" +:+ u) w = (Ok n, w1) ->
  exists m,
    get_count u (snd (count_and_cache ttl func u w))
    = (Ok m, snd (count_and_cache ttl func u w))
    /\ (m = n \/ m = 0).
Proof.
  intros Hfe Hi. destruct (redis_incr_value _ _ _ _ Hi) as [Hn [t Ht]].
  pose proof (page_counter_key ttl func Hfe u w) as Hk. rewrite Hi in Hk. simpl in Hk.
  rewrite Ht in Hk.
  set (w' := snd (count_and_cache ttl func u w)) in *.
  destruct (find ("count:" +:+ u) w') as [e|] eqn:Hf.
  - exists n. split; [|left; reflexivity].
    assert (e = Entry (ll2string n) t) as ->.
    { unfold find in Hf. rewrite Hk in Hf. destruct (live _ _); congruence. }
    rewrite (get_count_found u w' _ Hf).
    + cbn [value]. rewrite py_int_ll2string by assumption. reflexivity.
    + cbn [value]. destruct (ll2string_head n) as (d & ds & E). rewrite E. discriminate.
  - exists 0. split; [apply get_count_absent, Hf | right; reflexivity].
Qed.

(** * The specification, statement by statement *)

(** C1.  Every call of the wrapper on [u] does to the key ["count:" ++ u]
    what one INCR does, in every world and however the call ends (hit,
    miss, failed fetch), for every function [func] that leaves the store
    alone; the increment comes first: when the server refuses it, the call
    ends there.  Hence, from a world where the counter of [u] stands at [c],
    after any sequence of calls and waits in which the wrapper is called [k]
    times on [u], the key ["count:" ++ u] holds [c + k] and [get_count u]
    returns [c + k]: on a fresh server, [k].  The sequence may hold calls on
    any URL when [func] returns no page for a URL that starts with
    ["count:"], as the functions of this file do; for another [func] it
    holds no call on the URL that spells the counter key of [u].  The server
    counts in signed 64-bit integers, so [c + k] is taken within that
    range. *)
Theorem get_count_counts_calls ttl func u :
  fetcher func ->
  (forall w,
     redis (snd (count_and_cache ttl func u w)) !! ("count:" +:+ u)
     = redis (snd (redis_incr ("count:" +:+ u) w)) !! ("count:" +:+ u))
  /\ (forall w e w1,
        redis_incr ("count:" +:+ u) w = (Raise e, w1) ->
        count_and_cache ttl func u w = (Raise e, w1))
  /\ (forall c w ops,
        counter_at u c w ->
        refuses_count_urls func \/ avoids ("count:" +:+ u) ops = true ->
        c + Z.of_nat (calls_of u ops) <= LLONG_MAX ->
        counter_at u (c + Z.of_nat (calls_of u ops)) (run ttl func ops w)
        /\ get_count u (run ttl func ops w)
           = (Ok (c + Z.of_nat (calls_of u ops)), run ttl func ops w)).
Proof.
  intros Hfe.
  split; [intros w; apply page_counter_key, Hfe|].
  split; [intros w e w1; apply page_refused|].
  intros c w ops H Ha Hc.
  assert (H' : counter_at u (c + Z.of_nat (calls_of u ops)) (run ttl func ops w)).
  { rewrite <- (fold_bump_calls u ops c Hc). apply run_counter; auto. }
  split; [exact H' | apply get_count_counter, H'].
Qed.

(** On the preset store, with the function of line 47 as [func]: a hit, a
    call on the URL that spells the counter key, a second hit, a read, and
    after the entry has expired a miss, where [func(url)] raises.  Three
    calls on a counter at 3: six. *)
Lemma get_count_counts_calls_witness :
  fetcher (func_of_get_page web_site)
  /\ refuses_count_urls (func_of_get_page web_site)
  /\ counter_at "http://example.test/a" 3 preset
  /\ fst (get_count "http://example.test/a"
       (run 10 (func_of_get_page web_site)
          [GetPage "http://example.test/a"; Sleep 2000;
           GetPage "count:http://example.test/a";
           GetPage "http://example.test/a"; GetCount "http://example.test/a";
           Sleep 9000; GetPage "http://example.test/a"] preset))
     = Ok 6.
Proof.
  assert (H0 : counter_at "http://example.test/a" 3 preset)
    by (right; split; [vm_compute; split; discriminate | reflexivity]).
  split; [apply func_of_get_page_fetcher|].
  split; [apply func_of_get_page_refuses|]. split; [exact H0|].
  destruct (get_count_counts_calls 10 (func_of_get_page web_site) "http://example.test/a"
              (func_of_get_page_fetcher web_site)) as (_ & _ & Hrun).
  refine (f_equal fst (proj2 (Hrun 3 preset
           [GetPage "http://example.test/a"; Sleep 2000;
            GetPage "count:http://example.test/a";
            GetPage "http://example.test/a"; GetCount "http://example.test/a";
            Sleep 9000; GetPage "http://example.test/a"] H0
           (or_introl (func_of_get_page_refuses web_site)) _))).
  vm_compute. discriminate.
Defined.

(** C2, as the code has it.  The wrapper looks a page up under the URL
    itself and [get_count] reads ["count:" ++ u]; the two are one key exactly
    when the URL spells a counter key, and then the wrapper reads that
    counter as a cached page: when the counter of [x] stands at [c], 1 or
    more, a call on ["count:" ++ x] returns the digits of [c], whatever
    [func] is, and sends nothing.  Nothing else meets: a URL's own content
    key and counter key always differ; a URL that does not start with
    ["count:"] is the counter key of no URL; no call of the wrapper changes
    what is under the counter key of another URL, for [func] returns no page
    for a URL that starts with ["count:"]; and [get_count] writes
    nothing. *)
Theorem content_key_apart_from_counter_keys ttl func :
  fetcher func -> refuses_count_urls func ->
  (forall x c c' w,
     counter_at x c w -> 1 <= c ->
     counter_at ("count:" +:+ x) c' w -> c' < LLONG_MAX ->
     fst (count_and_cache ttl func ("count:" +:+ x) w) = Ok (ll2string c)
     /\ sent (snd (count_and_cache ttl func ("count:" +:+ x) w)) = sent w
     /\ get_count x w = (Ok c, w))
  /\ (forall v, "count:" +:+ v <> v)
  /\ (forall u v, String.prefix "count:" v = false -> "count:" +:+ u <> v)
  /\ (forall u v w,
        u <> v ->
        redis (snd (count_and_cache ttl func v w)) !! ("count:" +:+ u)
        = redis w !! ("count:" +:+ u))
  /\ (forall u w, snd (get_count u w) = w).
Proof.
  intros Hfe Hre. split; [|split; [apply count_key_ne|split; [|split]]].
  - intros x c c' w H Hc H' Hc'.
    destruct (page_reads_counter ttl func x c c' w H Hc H' Hc') as [Hr Hs].
    split; [exact Hr|]. split; [exact Hs|]. apply get_count_counter, H.
  - intros u v Hv <-. rewrite count_key_prefix in Hv. discriminate.
  - intros u v w Huv.
    destruct (decide ("count:" +:+ u = v)) as [E|E].
    + subst v. apply (page_content_key ttl func Hfe). intros w'. apply Hre.
    + apply (page_frame ttl func Hfe); [exact E|].
      intros E'. apply count_key_inj in E'. congruence.
  - apply get_count_world.
Qed.

(** On the preset store the counter of [a] stands at 3: a call on the URL
    that spells its key returns ["3"], with the function of line 47 as
    [func].  On a fresh server a call on ["count:y"] leaves the counter key
    of ["y"] as it was, with that function and with a fetcher that does the
    work of [get_page]. *)
Lemma content_key_apart_from_counter_keys_witness :
  fetcher (func_of_get_page web_site) /\ refuses_count_urls (func_of_get_page web_site)
  /\ fetcher (fetch web_site) /\ refuses_count_urls (fetch web_site)
  /\ counter_at "http://example.test/a" 3 preset
  /\ fst (count_and_cache 10 (func_of_get_page web_site)
            ("count:" +:+ "http://example.test/a") preset) = Ok "3"
  /\ redis (snd (count_and_cache 10 (func_of_get_page web_site) "count:y" (fresh 0)))
       !! ("count:" +:+ "y")
     = redis (fresh 0) !! ("count:" +:+ "y")
  /\ redis (snd (count_and_cache 10 (fetch web_site) "count:y" (fresh 0))) !! ("count:" +:+ "y")
     = redis (fresh 0) !! ("count:" +:+ "y").
Proof.
  assert (H3 : counter_at "http://example.test/a" 3 preset)
    by (right; split; [vm_compute; split; discriminate | reflexivity]).
  assert (H0 : counter_at ("count:" +:+ "http://example.test/a") 0 preset)
    by (left; split; reflexivity).
  destruct (content_key_apart_from_counter_keys 10 (func_of_get_page web_site)
              (func_of_get_page_fetcher web_site) (func_of_get_page_refuses web_site))
    as (Hread & _ & _ & H & _).
  destruct (content_key_apart_from_counter_keys 10 (fetch web_site)
              (fetch_fetcher web_site) (fetch_refuses web_site)) as (_ & _ & _ & H' & _).
  destruct (Hread "http://example.test/a" 3 0 preset H3 ltac:(lia) H0 eq_refl) as (Hr & _).
  exact (conj (func_of_get_page_fetcher web_site)
          (conj (func_of_get_page_refuses web_site)
           (conj (fetch_fetcher web_site)
            (conj (fetch_refuses web_site)
             (conj H3
              (conj Hr
               (conj (H "y" "count:y" (fresh 0) ltac:(discriminate))
                     (H' "y" "count:y" (fresh 0) ltac:(discriminate))))))))).
Defined.

(** The reads meet for a URL that starts with ["count:"].  After one call
    of the wrapper on ["x"], a call on ["count:x"] is answered from the cache
    with the counter of ["x"], whatever [func] is: with the function of line
    47, and with a fetcher that does its work. *)
Lemma count_prefix_collides_counterexample :
  fst (get_count "x" (run 10 (func_of_get_page web_down) [GetPage "x"] (fresh 0))) = Ok 1
  /\ fst (count_and_cache 10 (func_of_get_page web_down) "count:x"
            (run 10 (func_of_get_page web_down) [GetPage "x"] (fresh 0))) = Ok "1"
  /\ fst (get_count "x" (run 10 (fetch web_down) [GetPage "x"] (fresh 0))) = Ok 1
  /\ fst (count_and_cache 10 (fetch web_down) "count:x"
            (run 10 (fetch web_down) [GetPage "x"] (fresh 0))) = Ok "1"
  /\ sent (snd (count_and_cache 10 (fetch web_down) "count:x"
                  (run 10 (fetch web_down) [GetPage "x"] (fresh 0))))
     = sent (run 10 (fetch web_down) [GetPage "x"] (fresh 0)).
Proof. vm_compute. repeat split; reflexivity. Qed.

(** C3 at an entry that holds the empty string.  On the preset store the
    URL [empty] has an entry, not expired, with no content.  The wrapper
    does not serve it: whatever [func] and [ttl] are, the call goes on to
    [func(url)], which raises with the function of line 47 and sends a
    request with a fetcher that does its work.  The entry of [a], which has
    content, is served, whatever [func] and [ttl] are. *)
Theorem empty_entry_not_served ttl func :
  find "http://example.test/empty" preset = Some (Entry "" (Some 10000%N))
  /\ calls_func ttl func "http://example.test/empty" preset
  /\ fst (count_and_cache ttl (func_of_get_page web_site) "http://example.test/empty"
            preset)
     = Raise TypeError
  /\ sent (snd (count_and_cache ttl (fetch web_site) "http://example.test/empty" preset))
     = ["http://example.test/empty"]
  /\ fst (count_and_cache ttl func "http://example.test/a" preset) = Ok "HELLO".
Proof.
  split; [reflexivity|]. split; [|split; [|split]].
  - apply (page_miss_calls_func ttl func "http://example.test/empty" 0);
      [left; split; reflexivity | reflexivity | reflexivity].
  - reflexivity.
  - rewrite (page_miss ttl (fetch web_site) "http://example.test/empty" preset 1
               (store "count:http://example.test/empty" (Entry "1" None) preset)
               eq_refl eq_refl).
    match goal with
    | |- sent (snd (after_func _ _ ?r)) = _ =>
        let r' := eval vm_compute in r in change r with r'
    end.
    apply after_func_frame.
  - reflexivity.
Qed.

(** C4.  When nothing is cached for [u] and [func(url)] fails, the wrapper
    raises what [func] raised, in the world [func] left; nothing is cached
    for [u] afterwards and no key but the counter key has changed; the
    counter stands one higher than before. *)
Theorem failed_fetch_propagates ttl func u c w e w2 :
  fetcher func ->
  counter_at u c w -> c < LLONG_MAX ->
  find u w = None ->
  func u (snd (redis_incr ("count:" +:+ u) w)) = (Raise e, w2) ->
  count_and_cache ttl func u w = (Raise e, w2)
  /\ find u w2 = None
  /\ (forall k, k <> "count:" +:+ u -> redis w2 !! k = redis w !! k)
  /\ counter_at u (c + 1) w2.
Proof.
  intros Hfe H Hc Hf Hfu.
  destruct (incr_counter_view u c w H Hc) as (w1 & Hi & Hf1 & Hc1 & Hs1 & Hk1 & H1).
  rewrite Hi in Hfu. simpl in Hfu.
  assert (Ht : truthy (value <$> find u w1) = false) by (rewrite Hf1, Hf; reflexivity).
  pose proof (fetch_store _ Hfe u w1) as Fr. pose proof (fetch_clock _ Hfe u w1) as Fc.
  rewrite Hfu in Fr, Fc. simpl in Fr, Fc.
  pose proof (count_key_ne u) as Hne.
  split; [rewrite (page_miss ttl func u w _ w1 Hi Ht), Hfu; reflexivity|].
  repeat split.
  - apply (find_None_later u w); [assumption | | lia].
    rewrite Fr. apply Hk1. congruence.
  - intros k Hk. rewrite Fr. apply Hk1, Hk.
  - apply (counter_at_frame u _ w1); [assumption | rewrite Fr; reflexivity | assumption].
Qed.

(** A request that times out, with a fetcher that does the work of
    [get_page]; and the call [func(url)] of line 39 itself, which raises. *)
Lemma failed_fetch_propagates_witness :
  fetcher (fetch web_site)
  /\ counter_at "http://example.test/flaky" 0 (fresh 0)
  /\ find "http://example.test/flaky" (fresh 0) = None
  /\ fst (count_and_cache 10 (fetch web_site) "http://example.test/flaky" (fresh 0))
     = Raise (RequestException Timeout)
  /\ counter_at "http://example.test/flaky" 1
       (snd (count_and_cache 10 (fetch web_site) "http://example.test/flaky" (fresh 0)))
  /\ fst (count_and_cache 10 (func_of_get_page web_site) "http://example.test/flaky" (fresh 0))
     = Raise TypeError.
Proof.
  assert (H0 : counter_at "http://example.test/flaky" 0 (fresh 0))
    by (left; split; reflexivity).
  pose proof (failed_fetch_propagates 10 (fetch web_site) "http://example.test/flaky" 0
                (fresh 0) (RequestException Timeout)
                (snd (count_and_cache 10 (fetch web_site) "http://example.test/flaky" (fresh 0)))
                (fetch_fetcher web_site) H0 eq_refl eq_refl eq_refl) as (H1 & _ & _ & H4).
  pose proof (failed_fetch_propagates 10 (func_of_get_page web_site)
                "http://example.test/flaky" 0 (fresh 0) TypeError
                (snd (redis_incr ("count:" +:+ "http://example.test/flaky") (fresh 0)))
                (func_of_get_page_fetcher web_site) H0 eq_refl eq_refl eq_refl)
    as (H1' & _).
  exact (conj (fetch_fetcher web_site)
           (conj H0 (conj eq_refl (conj (f_equal fst H1) (conj H4 (f_equal fst H1')))))).
Defined.






(** C7.  [get_count u] reads the key ["count:" ++ u]: when nothing is found
    there, or bytes of length 0, it returns 0 and raises nothing; when the
    key holds the decimal form of a 64-bit integer, as INCR writes it, or
    any bytes [int()] reads as a number, it returns that number; and it
    leaves the world as it is.
    So on a fresh server every [get_count u] that comes before the first
    call of the wrapper on [u] returns 0, whatever other URLs the wrapper
    has been called on when [func] returns no page for a URL that starts
    with ["count:"], and for another [func] when it has not been called on
    the URL that spells the counter key of [u]. *)
Theorem get_count_reads_counter u :
  (forall w, find ("count:" +:+ u) w = None -> get_count u w = (Ok 0, w))
  /\ (forall w e,
        find ("count:" +:+ u) w = Some e -> value e = "" -> get_count u w = (Ok 0, w))
  /\ (forall w e n,
        find ("count:" +:+ u) w = Some e ->
        LLONG_MIN <= n <= LLONG_MAX -> value e = ll2string n ->
        get_count u w = (Ok n, w))
  /\ (forall w e n,
        find ("count:" +:+ u) w = Some e ->
        value e <> "" -> py_int (value e) = Some n ->
        get_count u w = (Ok n, w))
  /\ (forall ttl func t0 ops,
        fetcher func ->
        calls_of u ops = 0%nat ->
        refuses_count_urls func \/ avoids ("count:" +:+ u) ops = true ->
        get_count u (run ttl func ops (fresh t0))
        = (Ok 0, run ttl func ops (fresh t0))).
Proof.
  split; [intros w; apply get_count_absent|]. split; [|split; [|split]].
  - intros w e H Hv. unfold get_count, bind, redis_get.
    change (count_key u) with ("count:" +:+ u). rewrite H. simpl. rewrite Hv. reflexivity.
  - intros w e n H Hn Hv. rewrite (get_count_found u w e H).
    + rewrite Hv, py_int_ll2string by assumption. reflexivity.
    + rewrite Hv. destruct (ll2string_head n) as (d & ds & E). rewrite E. discriminate.
  - intros w e n H Hv Hp. rewrite (get_count_found u w e H Hv), Hp. reflexivity.
  - intros ttl func t0 ops Hfe Hk Ha.
    apply get_count_counter.
    pose proof (run_counter ttl func Hfe u ops 0 (fresh t0) (counter_at_fresh u t0)
                  Ha) as H.
    rewrite fold_bump_calls in H by (rewrite Hk; unfold LLONG_MAX; lia).
    rewrite Hk in H. exact H.
Qed.

Lemma get_count_reads_counter_witness :
  fst (get_count "http://example.test/b" preset) = Ok 0
  /\ fst (get_count "http://example.test/a" preset) = Ok 3
  /\ fst (get_count "http://example.test/a"
            (run 10 (func_of_get_page web_site)
               [GetCount "http://example.test/a"; Sleep 500;
                GetPage "http://example.test/missing";
                GetPage "count:http://example.test/a";
                GetCount "http://example.test/a"] (fresh 0))) = Ok 0.
Proof.
  pose proof (get_count_reads_counter "http://example.test/b") as (H0 & _).
  pose proof (get_count_reads_counter "http://example.test/a") as (_ & _ & H1 & _ & Hrun).
  split; [|split].
  - exact (f_equal fst (H0 preset eq_refl)).
  - exact (f_equal fst (H1 preset (Entry "3" None) 3 eq_refl
                          ltac:(vm_compute; split; discriminate) eq_refl)).
  - exact (f_equal fst (Hrun 10 (func_of_get_page web_site) 0%N
             [GetCount "http://example.test/a"; Sleep 500;
              GetPage "http://example.test/missing";
              GetPage "count:http://example.test/a";
              GetCount "http://example.test/a"] (func_of_get_page_fetcher web_site)
             eq_refl (or_introl (func_of_get_page_refuses web_site)))).
Defined.

(** C8.  The counter of [u] starts at 0, the first call of the wrapper on
    [u] makes it 1, and over any sequence of calls of the wrapper, calls of
    [get_count] and waits it never goes down; once it is 1 or more it stays
    in the store, under ["count:" ++ u], with no expiry.  This holds for
    every [func] that leaves the store alone and returns no page for a URL
    that starts with ["count:"], as the function of line 47 and the body of
    [get_page] do. *)
Theorem counter_never_decreases ttl func u :
  fetcher func -> refuses_count_urls func ->
  (forall t0,
     counter_at u 0 (fresh t0)
     /\ counter_at u 1 (snd (count_and_cache ttl func u (fresh t0))))
  /\ (forall c w ops,
        counter_at u c w ->
        exists c', c <= c' /\ counter_at u c' (run ttl func ops w)
                   /\ get_count u (run ttl func ops w) = (Ok c', run ttl func ops w)).
Proof.
  intros Hfe Hre. split.
  - intros t0. split; [apply counter_at_fresh|].
    apply (page_counts ttl func Hfe u 0); [apply counter_at_fresh | reflexivity].
  - intros c w ops H. exists (fold_left (bump u) ops c).
    assert (H' : counter_at u (fold_left (bump u) ops c) (run ttl func ops w))
      by (apply run_counter; auto).
    split; [apply fold_bump_ge|]. split; [exact H' | apply get_count_counter, H'].
Qed.

(** With the function of line 47 every miss raises, and the counter of
    [a] goes from 3 to 5 over two calls on [a] and two on the URL that
    spells its key.  With a fetcher that does the work of [get_page] the
    network would answer a request for ["count:y"], but none is sent: the
    counter of ["y"] moves with the calls on ["y"] alone. *)
Lemma counter_never_decreases_witness :
  fetcher (func_of_get_page web_site) /\ refuses_count_urls (func_of_get_page web_site)
  /\ fetcher (fetch web_site) /\ refuses_count_urls (fetch web_site)
  /\ counter_at "http://example.test/a" 3 preset
  /\ (exists c', 3 <= c'
       /\ counter_at "http://example.test/a" c'
            (run 10 (func_of_get_page web_site)
               [GetPage "count:http://example.test/a"; GetPage "http://example.test/a";
                Sleep 20000; GetPage "count:http://example.test/a";
                GetPage "http://example.test/a"] preset))
  /\ fst (get_count "http://example.test/a"
            (run 10 (func_of_get_page web_site)
               [GetPage "count:http://example.test/a"; GetPage "http://example.test/a";
                Sleep 20000; GetPage "count:http://example.test/a";
                GetPage "http://example.test/a"] preset)) = Ok 5
  /\ counter_at "y" 1 (snd (count_and_cache 10 (fetch web_site) "y" (fresh 0)))
  /\ (exists c', 0 <= c'
       /\ counter_at "y" c'
            (run 10 (fetch web_site)
               [GetPage "count:y"; GetPage "y"; Sleep 20000; GetPage "count:y"; GetPage "y"]
               (fresh 0))).
Proof.
  assert (H3 : counter_at "http://example.test/a" 3 preset)
    by (right; split; [vm_compute; split; discriminate | reflexivity]).
  destruct (counter_never_decreases 10 (func_of_get_page web_site) "http://example.test/a"
              (func_of_get_page_fetcher web_site) (func_of_get_page_refuses web_site))
    as [_ Hrun3].
  destruct (counter_never_decreases 10 (fetch web_site) "y"
              (fetch_fetcher web_site) (fetch_refuses web_site)) as [Hstart Hrun].
  destruct (Hrun3 3 preset
              [GetPage "count:http://example.test/a"; GetPage "http://example.test/a";
               Sleep 20000; GetPage "count:http://example.test/a";
               GetPage "http://example.test/a"] H3) as (c3 & Hle3 & Hat3 & _).
  destruct (Hrun 0 (fresh 0)
              [GetPage "count:y"; GetPage "y"; Sleep 20000; GetPage "count:y"; GetPage "y"]
              (proj1 (Hstart 0%N))) as (c0 & Hle0 & Hat0 & _).
  exact (conj (func_of_get_page_fetcher web_site)
          (conj (func_of_get_page_refuses web_site)
           (conj (fetch_fetcher web_site)
            (conj (fetch_refuses web_site)
             (conj H3
              (conj (ex_intro _ c3 (conj Hle3 Hat3))
               (conj eq_refl
                (conj (proj2 (Hstart 0%N))
                      (ex_intro _ c0 (conj Hle0 Hat0)))))))))).
Defined.



(** C10, as the code has it.  [get_count u] raises [ValueError] whenever
    the key ["count:" ++ u] holds bytes, not empty, that [int()] does not
    read as a number.  The wrapper and [get_count] do not bring such a state
    about, [func] returning no page for a URL that starts with ["count:"]: a
    call of the wrapper on ["count:" ++ u] leaves what is under that key as
    it was, and from a world where the counter of [u] is absent or as INCR
    writes it, [get_count u] returns a number after any sequence of
    calls. *)
Theorem get_count_raises_on_malformed u :
  (forall w e,
     find ("count:" +:+ u) w = Some e ->
     value e <> "" -> py_int (value e) = None ->
     get_count u w = (Raise ValueError, w))
  /\ (forall ttl func w,
        fetcher func -> refuses_count_urls func ->
        redis (snd (count_and_cache ttl func ("count:" +:+ u) w)) !! ("count:" +:+ u)
        = redis w !! ("count:" +:+ u))
  /\ (forall ttl func c w ops,
        fetcher func -> refuses_count_urls func ->
        counter_at u c w ->
        exists n, get_count u (run ttl func ops w) = (Ok n, run ttl func ops w)).
Proof.
  split; [|split].
  - intros w e H Hv Hp. rewrite (get_count_found u w e H Hv), Hp. reflexivity.
  - intros ttl func w Hfe Hre. apply (page_content_key ttl func Hfe).
    intros w'. apply Hre.
  - intros ttl func c w ops Hfe Hre H. exists (fold_left (bump u) ops c).
    apply get_count_counter, run_counter; auto.
Qed.

Lemma get_count_raises_on_malformed_witness :
  find ("count:" +:+ "odd") preset = Some (Entry "<html>" (Some 10000%N))
  /\ py_int "<html>" = None
  /\ get_count "odd" preset = (Raise ValueError, preset).
Proof.
  split; [reflexivity|]. split; [reflexivity|].
  exact (proj1 (get_count_raises_on_malformed "odd") preset
           (Entry "<html>" (Some 10000%N)) eq_refl ltac:(discriminate) eq_refl).
Defined.

(** The way to a malformed counter that goes through the wrapper is
    closed.  The network would answer a request for ["count:y"] with a page
    that is no number; a call of the wrapper on ["count:y"] raises, with a
    fetcher that does the work of [get_page] as with the function of line
    47, nothing is stored under the counter key of ["y"], and [get_count]
    returns 0. *)
Lemma page_under_counter_key_counterexample :
  outcome (web_site 0 "count:y") = Responds (Response 200 "<html>")
  /\ count_and_cache 10 (fetch web_site) "count:y" (fresh 0)
     = (Raise (RequestException InvalidSchema),
        store "count:count:y" (Entry "1" None) (fresh 0))
  /\ fst (count_and_cache 10 (func_of_get_page web_site) "count:y" (fresh 0))
     = Raise TypeError
  /\ find "count:y" (snd (count_and_cache 10 (fetch web_site) "count:y" (fresh 0))) = None
  /\ fst (get_count "y" (snd (count_and_cache 10 (fetch web_site) "count:y" (fresh 0))))
     = Ok 0
  /\ fst (get_count "y" (snd (count_and_cache 10 (func_of_get_page web_site) "count:y"
                                (fresh 0))))
     = Ok 0.
Proof. vm_compute. repeat split; reflexivity. Qed.

(** ** Further properties *)

(** A cached entry that is found and is not empty is decoded and returned
    when its bytes are UTF-8, and is refused with [UnicodeDecodeError] when
    they are not.  Either way [func] is not called, no request is sent, no
    key but the counter key changes, and the access is counted. *)
Theorem cache_hit_serves_entry ttl func u c w e :
  counter_at u c w -> c < LLONG_MAX ->
  find u w = Some e -> value e <> "" ->
  fst (count_and_cache ttl func u w)
  = (if utf8_valid (value e) then Ok (value e) else Raise UnicodeDecodeError)
  /\ sent (snd (count_and_cache ttl func u w)) = sent w
  /\ (forall k, k <> "count:" +:+ u ->
        redis (snd (count_and_cache ttl func u w)) !! k = redis w !! k)
  /\ counter_at u (c + 1) (snd (count_and_cache ttl func u w)).
Proof.
  intros H Hc Hf Hv.
  destruct (page_hit_view ttl func u c w e H Hc Hf Hv) as (Hr & Hs & _ & Hk & H1).
  repeat split; assumption.
Qed.

Lemma cache_hit_serves_entry_witness :
  counter_at "http://example.test/a" 3 preset
  /\ counter_at "http://example.test/raw" 0 preset
  /\ fst (count_and_cache 10 (func_of_get_page web_site) "http://example.test/a" preset)
     = Ok "HELLO"
  /\ fst (count_and_cache 10 (func_of_get_page web_site) "http://example.test/raw" preset)
     = Raise UnicodeDecodeError.
Proof.
  assert (H3 : counter_at "http://example.test/a" 3 preset)
    by (right; split; [vm_compute; split; discriminate | reflexivity]).
  assert (H0 : counter_at "http://example.test/raw" 0 preset)
    by (left; split; reflexivity).
  pose proof (cache_hit_serves_entry 10 (func_of_get_page web_site) "http://example.test/a"
                3 preset (Entry "HELLO" (Some 10000%N)) H3 eq_refl eq_refl
                ltac:(discriminate)) as (Ha & _).
  pose proof (cache_hit_serves_entry 10 (func_of_get_page web_site) "http://example.test/raw"
                0 preset (Entry (String (ascii_of_N 255) "") None) H0 eq_refl eq_refl
                ltac:(discriminate)) as (Hb & _).
  exact (conj H3 (conj H0 (conj Ha Hb))).
Defined.



(** ** The decorator on any function *)

(** On a hit the wrapper neither calls [func] nor uses [ttl]: two
    decorations of any two functions, at any two times to live, do the same
    on a URL whose entry is found and is not empty. *)
Theorem hit_ignores_func ttl ttl' (func func' : string -> M string) u w :
  truthy (value <$> find u w) = true ->
  count_and_cache ttl func u w = count_and_cache ttl' func' u w.
Proof. apply page_hit_any. Qed.

Lemma hit_ignores_func_witness :
  truthy (value <$> find "http://example.test/a" preset) = true
  /\ count_and_cache 10 (func_of_get_page web_down) "http://example.test/a" preset
     = count_and_cache 3600 (fun _ => ret "other") "http://example.test/a" preset.
Proof.
  split; [reflexivity|].
  exact (hit_ignores_func 10 3600 (func_of_get_page web_down) (fun _ => ret "other")
           "http://example.test/a" preset eq_refl).
Defined.

(** ** What a call leaves alone *)

(** One call of the wrapper on [u] reads and writes under two keys only,
    [u] and ["count:" ++ u]; it removes no key, sends one request at most,
    for [u], and the clock does not go back. *)
Theorem get_page_touches_two_keys ttl func u w :
  fetcher func ->
  (forall k, k <> u -> k <> "count:" +:+ u ->
     redis (snd (count_and_cache ttl func u w)) !! k = redis w !! k)
  /\ (forall k, is_Some (redis w !! k) ->
        is_Some (redis (snd (count_and_cache ttl func u w)) !! k))
  /\ (clock w <= clock (snd (count_and_cache ttl func u w)))%N
  /\ (sent (snd (count_and_cache ttl func u w)) = sent w
      \/ sent (snd (count_and_cache ttl func u w)) = (sent w ++ [u])%list).
Proof.
  intros Hfe. destruct (page_world ttl func Hfe u w) as (H1 & H2 & H3 & H4 & _).
  auto.
Qed.

Lemma get_page_touches_two_keys_witness :
  fetcher (func_of_get_page web_site)
  /\ redis (snd (count_and_cache 10 (func_of_get_page web_site) "http://example.test/missing" preset))
       !! "http://example.test/a"
     = redis preset !! "http://example.test/a".
Proof.
  split; [apply func_of_get_page_fetcher|].
  exact (proj1 (get_page_touches_two_keys 10 (func_of_get_page web_site) "http://example.test/missing"
                  preset (func_of_get_page_fetcher web_site))
           "http://example.test/a" ltac:(discriminate) ltac:(discriminate)).
Defined.

(** ** Sequences *)

(** A sequence sends no more requests than it makes calls of the wrapper;
    [get_count] and waiting send none. *)
Theorem requests_bounded_by_calls ttl func ops :
  fetcher func ->
  forall w, (length (sent (run ttl func ops w)) <= length (sent w) + pages_of ops)%nat.
Proof.
  intros Hfe. unfold pages_of.
  induction ops as [|o ops IH]; intros w; simpl; [lia|].
  specialize (IH (step ttl func w o)).
  destruct o as [v|v|d]; simpl in *.
  - destruct (page_sent ttl func Hfe v w) as [E|E]; rewrite E in IH;
      rewrite ?length_app in IH; simpl in IH; lia.
  - rewrite get_count_world in *. exact IH.
  - exact IH.
Qed.

Lemma requests_bounded_by_calls_witness :
  fetcher (fetch web_site)
  /\ (length (sent (run 10 (fetch web_site)
                      [GetPage "http://example.test/a"; GetPage "http://example.test/a";
                       GetCount "http://example.test/a"] (fresh 0)))
      <= length (sent (fresh 0)) + 2)%nat.
Proof.
  split; [apply fetch_fetcher|].
  exact (requests_bounded_by_calls 10 (fetch web_site)
           [GetPage "http://example.test/a"; GetPage "http://example.test/a";
            GetCount "http://example.test/a"] (fetch_fetcher web_site) (fresh 0)).
Defined.

(** Hits do not prolong an entry.  From a world where [u] holds a non-empty
    page that expires at [D], any sequence of calls of the wrapper on [u],
    calls of [get_count] and waits that ends by [D] leaves that page and
    that expiry under [u] and sends no request. *)
Theorem hits_do_not_refresh ttl func u v D ops :
  fetcher func ->
  forall w,
  redis w !! u = Some (Entry v (Some D)) -> v <> "" ->
  pages_only u ops = true ->
  (clock (run ttl func ops w) <= D)%N ->
  redis (run ttl func ops w) !! u = Some (Entry v (Some D))
  /\ sent (run ttl func ops w) = sent w.
Proof.
  intros Hfe.
  induction ops as [|o ops IH]; intros w He Hv Hp Hc; simpl in *; [auto|].
  apply andb_prop in Hp as [Ho Hp].
  pose proof (run_clock ttl func Hfe ops (step ttl func w o)) as H1.
  pose proof (step_clock ttl func Hfe w o) as H2.
  destruct (step_keeps_entry ttl func u v D w o He Hv Ho ltac:(lia)) as [He' Hs'].
  destruct (IH (step ttl func w o) He' Hv Hp Hc) as [He'' Hs''].
  split; [exact He'' | congruence].
Qed.

Lemma hits_do_not_refresh_witness :
  fetcher (func_of_get_page web_site)
  /\ redis preset !! "http://example.test/a" = Some (Entry "HELLO" (Some 10000%N))
  /\ sent (run 10 (func_of_get_page web_site)
             [GetPage "http://example.test/a"; Sleep 4000;
              GetPage "http://example.test/a"; GetCount "http://example.test/a";
              Sleep 4000; GetPage "http://example.test/a"] preset)
     = sent preset.
Proof.
  split; [apply func_of_get_page_fetcher|]. split; [reflexivity|].
  refine (proj2 (hits_do_not_refresh 10 (func_of_get_page web_site) "http://example.test/a" "HELLO"
             10000%N
             [GetPage "http://example.test/a"; Sleep 4000;
              GetPage "http://example.test/a"; GetCount "http://example.test/a";
              Sleep 4000; GetPage "http://example.test/a"]
             (func_of_get_page_fetcher web_site) preset eq_refl _ eq_refl _)).
  - discriminate.
  - vm_compute. discriminate.
Defined.

(** ** Edge cases of the store *)



(** Whenever the key ["count:" ++ u] holds an integer [n] that INCR
    accepts, expiring or not, [get_count u] returns [n].  A call of the
    wrapper on [u] puts [n + 1] under the key and keeps the key's expiry
    when [n] is below the largest 64-bit integer, and is refused at that
    value. *)
Theorem get_count_agrees_with_incr ttl func u w e n :
  fetcher func ->
  find ("count:" +:+ u) w = Some e -> string2ll (value e) = Some n ->
  get_count u w = (Ok n, w)
  /\ (n < LLONG_MAX ->
      redis (snd (count_and_cache ttl func u w)) !! ("count:" +:+ u)
      = Some (Entry (ll2string (n + 1)) (expire_at e)))
  /\ (n = LLONG_MAX ->
      count_and_cache ttl func u w
      = (Raise (ResponseError "increment or decrement would overflow"), w)).
Proof.
  intros Hfe Hf Hn. split; [|split].
  - rewrite (get_count_found u w e Hf).
    + rewrite (string2ll_py_int _ _ Hn). reflexivity.
    + eapply string2ll_nonempty; eassumption.
  - intros Hlt. rewrite (page_counter_key ttl func Hfe). unfold redis_incr.
    rewrite Hf, Hn. destruct (Z.ltb_spec n LLONG_MAX); [|lia]. simpl.
    apply lookup_insert_eq.
  - intros ->. apply page_refused. unfold redis_incr. rewrite Hf, Hn. reflexivity.
Qed.

Lemma get_count_agrees_with_incr_witness :
  fetcher (func_of_get_page web_site)
  /\ find ("count:" +:+ "http://example.test/a") preset = Some (Entry "3" None)
  /\ get_count "http://example.test/a" preset = (Ok 3, preset)
  /\ redis (snd (count_and_cache 10 (func_of_get_page web_site) "http://example.test/a" preset))
       !! ("count:" +:+ "http://example.test/a")
     = Some (Entry "4" None).
Proof.
  pose proof (get_count_agrees_with_incr 10 (func_of_get_page web_site) "http://example.test/a"
                preset (Entry "3" None) 3 (func_of_get_page_fetcher web_site) eq_refl eq_refl)
    as (H1 & H2 & _).
  exact (conj (func_of_get_page_fetcher web_site) (conj eq_refl (conj H1 (H2 eq_refl)))).
Defined.

(** Bytes under ["count:" ++ u] that are no integer in the server's sense
    block the wrapper on [u].  While they live, every call on [u] is refused
    by INCR: it raises, does not go to [func], sends nothing and changes
    nothing.  Once they have expired, [u] counts from 0 again. *)
Theorem malformed_counter_blocks_wrapper ttl func u v D w :
  redis w !! ("count:" +:+ u) = Some (Entry v (Some D)) ->
  string2ll v = None ->
  (forall d, (clock w + d <= D)%N ->
     count_and_cache ttl func u (sleep d w)
     = (Raise (ResponseError "value is not an integer or out of range"), sleep d w))
  /\ (forall d, (D < clock w + d)%N -> counter_at u 0 (sleep d w)).
Proof.
  intros He Hp. split; intros d Hd.
  - apply page_refused. unfold redis_incr. rewrite (find_deadline _ _ _ _ d He).
    destruct (N.ltb_spec D (clock w + d)); [lia|]. cbn [value]. rewrite Hp. reflexivity.
  - left. split; [reflexivity|]. rewrite (find_deadline _ _ _ _ d He).
    destruct (N.ltb_spec D (clock w + d)); [reflexivity|lia].
Qed.

Lemma malformed_counter_blocks_wrapper_witness :
  redis preset !! ("count:" +:+ "odd") = Some (Entry "<html>" (Some 10000%N))
  /\ fst (count_and_cache 10 (func_of_get_page web_site) "odd" (sleep 2000 preset))
     = Raise (ResponseError "value is not an integer or out of range")
  /\ counter_at "odd" 0 (sleep 9001 preset).
Proof.
  pose proof (malformed_counter_blocks_wrapper 10 (func_of_get_page web_site) "odd" "<html>" 10000%N
                preset eq_refl eq_refl) as (H1 & H2).
  exact (conj eq_refl
           (conj (f_equal fst (H1 2000%N ltac:(vm_compute; discriminate)))
                 (H2 9001%N eq_refl))).
Defined.

(** The counter stops at the largest signed 64-bit integer.  There the
    wrapper is refused before it looks at the cache: it raises, sends
    nothing and changes nothing, even when a page is cached for [u];
    [get_count u] keeps returning that value, over any sequence that makes
    no call on the URL that spells the counter key. *)
Theorem counter_stops_at_llong_max ttl func u w :
  fetcher func ->
  counter_at u LLONG_MAX w ->
  count_and_cache ttl func u w
  = (Raise (ResponseError "increment or decrement would overflow"), w)
  /\ (forall ops, avoids ("count:" +:+ u) ops = true ->
        get_count u (run ttl func ops w) = (Ok LLONG_MAX, run ttl func ops w)).
Proof.
  intros Hfe H. split; [apply page_full, H|].
  intros ops Ha. apply get_count_counter.
  rewrite <- (fold_bump_full u ops). apply run_counter; auto.
Qed.

Lemma counter_stops_at_llong_max_witness :
  fetcher (func_of_get_page web_site)
  /\ counter_at "full" LLONG_MAX preset
  /\ fst (count_and_cache 10 (func_of_get_page web_site) "full" preset)
     = Raise (ResponseError "increment or decrement would overflow").
Proof.
  assert (H : counter_at "full" LLONG_MAX preset)
    by (right; split; [vm_compute; split; discriminate | reflexivity]).
  split; [apply func_of_get_page_fetcher|]. split; [exact H|].
  exact (f_equal fst (proj1 (counter_stops_at_llong_max 10 (func_of_get_page web_site) "full" preset
                               (func_of_get_page_fetcher web_site) H))).
Defined.

(** [get_count u] cannot raise right after a call of the wrapper on [u]
    that returned a page, in any world: it returns a number and leaves the
    world as it is. *)
Theorem get_count_after_get_page ttl func u w p :
  fetcher func ->
  fst (count_and_cache ttl func u w) = Ok p ->
  exists m,
    get_count u (snd (count_and_cache ttl func u w))
    = (Ok m, snd (count_and_cache ttl func u w)).
Proof.
  intros Hfe Hp.
  destruct (redis_incr ("count:" +:+ u) w) as [[n|e] w1] eqn:Hi.
  - destruct (get_count_after_incr ttl func u w n w1 Hfe Hi) as (m & Hm & _). eauto.
  - rewrite (page_refused ttl func _ _ _ _ Hi) in Hp. discriminate.
Qed.

Lemma get_count_after_get_page_witness :
  fetcher (func_of_get_page web_site)
  /\ fst (count_and_cache 10 (func_of_get_page web_site) "http://example.test/a" preset)
     = Ok "HELLO"
  /\ exists m,
       get_count "http://example.test/a"
         (snd (count_and_cache 10 (func_of_get_page web_site) "http://example.test/a" preset))
       = (Ok m,
          snd (count_and_cache 10 (func_of_get_page web_site) "http://example.test/a" preset)).
Proof.
  split; [apply func_of_get_page_fetcher|]. split; [reflexivity|].
  exact (get_count_after_get_page 10 (func_of_get_page web_site) "http://example.test/a"
           preset "HELLO" (func_of_get_page_fetcher web_site) eq_refl).
Defined.

(** ** The class statement *)

(** A call that gives no value to a parameter without a default does not
    bind. *)
Lemma bind_args_missing name params kw :
  arg name kw = None -> bind_args ((name, None) :: params) [] kw = None.
Proof. intros H. simpl. rewrite H. reflexivity. Qed.

(** The decoration of line 46 raises [TypeError], whatever keywords it
    passes short of [self]: [count_and_cache] is called with no instance.
    So the class body stops there and binds no [get_page]; and were the
    wrapper built as the line means, each call [func(url)] would raise
    [TypeError] too, in every world and without a request, the function of
    line 47 wanting [self] and [url]. *)
Theorem decoration_raises_type_error web :
  (forall kw, arg "self" kw = None -> decorator_ttl [] kw = Raise TypeError)
  /\ get_page web = Raise TypeError
  /\ (forall url w, func_of_get_page web url w = (Raise TypeError, w)).
Proof.
  split; [|split].
  - intros kw H. unfold decorator_ttl, count_and_cache_params.
    rewrite bind_args_missing by assumption. reflexivity.
  - reflexivity.
  - intros url w. apply func_of_get_page_raises.
Qed.

(** Line 46 as written, the same call with an instance in front, and
    [func(url)] on a network that would answer. *)
Lemma decoration_raises_type_error_witness :
  decorator_ttl [] [("ttl", VInt 10)] = Raise TypeError
  /\ decorator_ttl [VCache] [("ttl", VInt 10)] = Ok (VInt 10)
  /\ func_of_get_page web_site "http://example.test/a" (fresh 0)
     = (Raise TypeError, fresh 0).
Proof.
  pose proof (decoration_raises_type_error web_site) as (H1 & _ & H3).
  exact (conj (H1 [("ttl", VInt 10)] eq_refl)
           (conj eq_refl (H3 "http://example.test/a" (fresh 0)))).
Defined.

(** With the function of line 47 as [func], a call of the wrapper that
    finds no page to serve raises [TypeError]: the access is counted,
    nothing is stored under the URL, and over any sequence of calls no
    request is ever sent. *)
Theorem miss_raises_type_error web ttl u c w :
  counter_at u c w -> c < LLONG_MAX ->
  truthy (value <$> find u w) = false ->
  fst (count_and_cache ttl (func_of_get_page web) u w) = Raise TypeError
  /\ redis (snd (count_and_cache ttl (func_of_get_page web) u w)) !! u = redis w !! u
  /\ counter_at u (c + 1) (snd (count_and_cache ttl (func_of_get_page web) u w))
  /\ (forall ops w0, sent (run ttl (func_of_get_page web) ops w0) = sent w0).
Proof.
  intros H Hc Ht.
  destruct (incr_counter_view u c w H Hc) as (w1 & Hi & Hf1 & Hc1 & Hs1 & Hk1 & H1).
  rewrite <- Hf1 in Ht.
  rewrite (page_miss ttl (func_of_get_page web) u w _ w1 Hi Ht),
    func_of_get_page_raises. simpl.
  pose proof (count_key_ne u) as Hne.
  split; [reflexivity|]. split; [apply Hk1; congruence|]. split; [exact H1|].
  induction ops as [|o ops IH]; intros w0; simpl; [reflexivity|].
  rewrite IH. destruct o as [v|v|d]; simpl.
  - destruct (redis_incr_frame ("count:" +:+ v) w0) as (_ & _ & Hs).
    destruct (redis_incr ("count:" +:+ v) w0) as [[n|e] w1'] eqn:Hi'; simpl in Hs.
    + destruct (truthy (value <$> find v w1')) eqn:Ht'.
      * destruct (truthy_value _ Ht') as (e & Hf & Hv).
        rewrite (page_hit ttl _ v w0 _ w1' e Hi' Hf Hv), decode_world. exact Hs.
      * rewrite (page_miss ttl _ v w0 _ w1' Hi' Ht'), func_of_get_page_raises. exact Hs.
    + rewrite (page_refused ttl _ v w0 _ w1' Hi'). exact Hs.
  - rewrite get_count_world. reflexivity.
  - reflexivity.
Qed.

Lemma miss_raises_type_error_witness :
  counter_at "http://example.test/a" 0 (fresh 0)
  /\ fst (count_and_cache 10 (func_of_get_page web_site) "http://example.test/a" (fresh 0))
     = Raise TypeError
  /\ counter_at "http://example.test/a" 1
       (snd (count_and_cache 10 (func_of_get_page web_site) "http://example.test/a"
               (fresh 0))).
Proof.
  assert (H0 : counter_at "http://example.test/a" 0 (fresh 0))
    by (left; split; reflexivity).
  pose proof (miss_raises_type_error web_site 10 "http://example.test/a" 0 (fresh 0)
                H0 eq_refl eq_refl) as (H1 & _ & H3 & _).
  exact (conj H0 (conj H1 H3)).
Defined.
